(** * cbzetto: the virtualised multi-archive page engine of [main.py]

    A shallow embedding of the catalogue loader, the layout recompute, the
    scroll window sweep, the page materialisation and the session state of
    the viewer, followed by the properties the specification states about
    them. *)

From Stdlib Require Import ZArith List Lia Bool Ascii Sorted.
From Stdlib Require Import Floats.SpecFloat.
From stdpp Require Import base option list gmap strings.

Local Open Scope Z_scope.

(** ** Python numbers

    Page sizes, widths and offsets are Python [int]s: unbounded integers,
    here [Z].  The floats of the program are the scale factor
    [width / orig_width], its product with [orig_height], and the scroll
    percentage of the indicator; CPython computes them in IEEE binary64 with
    round-to-nearest-even, which is what [SpecFloat] implements for
    [prec = 53] and [emax = 1024]. *)

Module Float64.

Definition prec : Z := 53.
Definition emax : Z := 1024.

(** A float that Python can hold in a variable without having raised:
    an overflowing conversion or division raises [OverflowError] instead of
    giving an infinity. *)
Definition finite (x : spec_float) : option spec_float :=
  match x with
  | S754_zero _ | S754_finite _ _ _ => Some x
  | S754_infinity _ | S754_nan => None
  end.

(** The integer [n] as an exact, not yet rounded, binary number. *)
Definition exact (n : Z) : spec_float :=
  match n with
  | Z0 => S754_zero false
  | Zpos p => S754_finite false p 0
  | Zneg p => S754_finite true p 0
  end.

(** [float(n)], the implicit conversion of an [int] operand. *)
Definition of_int (n : Z) : option spec_float :=
  finite (binary_normalize prec emax n 0 false).

(** [a / b] on two [int]s: the correctly rounded quotient. *)
Definition int_true_div (a b : Z) : option spec_float :=
  finite (SFdiv prec emax (exact a) (exact b)).

(** [n * x] for an [int] [n] and a float [x]. *)
Definition int_mul (n : Z) (x : spec_float) : option spec_float :=
  y ← of_int n; Some (SFmul prec emax y x).

(** [x * n] for a float [x] and an [int] [n]. *)
Definition mul_int (x : spec_float) (n : Z) : option spec_float :=
  y ← of_int n; Some (SFmul prec emax x y).

(** [int(x)]: truncation toward zero; infinities and NaN raise. *)
Definition to_int (x : spec_float) : option Z :=
  match x with
  | S754_zero _ => Some 0
  | S754_finite s m e => Some (cond_Zopp s (Z.shiftl (Z.pos m) e))
  | S754_infinity _ | S754_nan => None
  end.

(** The sign a float carries into [int(x)]; a zero of either sign is 0. *)
Definition has_sign (s : bool) (x : spec_float) : Prop :=
  match x with
  | S754_finite s' _ _ => s' = s
  | _ => True
  end.

(** A float of magnitude below [2 ^ k]; infinities and NaN are below
    nothing. *)
Definition below (k : Z) (x : spec_float) : Prop :=
  match x with
  | S754_zero _ => True
  | S754_finite _ m e => Zdigits2 (Z.pos m) + e <= k
  | S754_infinity _ | S754_nan => False
  end.

(** A mantissa under rounding that is not negative and below [2 ^ k]. *)
Definition fits (k : Z) (r : shr_record) : Prop := 0 <= shr_m r < 2 ^ k.

End Float64.

(** The value of [scale_factor]: a float when the page has a positive
    natural width, the [int] 1 otherwise. *)
Inductive pynum :=
  | PyInt (n : Z)
  | PyFloat (x : spec_float).

(** [width / orig_width if orig_width > 0 else 1] *)
Definition scale_factor (width orig_width : Z) : option pynum :=
  if 0 <? orig_width then PyFloat <$> Float64.int_true_div width orig_width
  else Some (PyInt 1).

(** [int(orig_height * scale_factor)] *)
Definition int_of_scaled (orig_height : Z) (scale : pynum) : option Z :=
  match scale with
  | PyInt n => Some (orig_height * n)
  | PyFloat x => Float64.int_mul orig_height x ≫= Float64.to_int
  end.

(** The two lines shared by [update_heights] and [load_pixmap]:
    [scale_factor = width / orig_width if orig_width > 0 else 1] and
    [height = int(orig_height * scale_factor) if orig_height > 0 else 100].
    [None] is a raised exception. *)
Definition page_height (width : Z) (size : Z * Z) : option Z :=
  let '(orig_width, orig_height) := size in
  scale ← scale_factor width orig_width;
  if 0 <? orig_height then int_of_scaled orig_height scale else Some 100.

(** ** File names

    A [str] is modelled by its UTF-8 bytes.  Comparing two such strings byte
    by byte orders them as Python orders the code points, and lowering the
    ASCII letters alone decides [endswith] of an ASCII suffix as
    [str.lower()] does for the suffixes used here. *)

Local Open Scope string_scope.

Definition lower_ascii (c : Ascii.ascii) : Ascii.ascii :=
  let n := Ascii.N_of_ascii c in
  if ((65 <=? n) && (n <=? 90))%N then Ascii.ascii_of_N (n + 32) else c.

Fixpoint lower (s : string) : string :=
  match s with
  | EmptyString => EmptyString
  | String c s' => String (lower_ascii c) (lower s')
  end.

Definition endswith (s suffix : string) : bool :=
  String.prefix (String.rev suffix) (String.rev s).

(** [f.lower().endswith(('.cbz', '.zip'))] *)
Definition is_archive_name (f : string) : bool :=
  endswith (lower f) ".cbz" || endswith (lower f) ".zip".

(** [f.lower().endswith(('.png', '.jpg', '.jpeg'))] *)
Definition is_image_name (f : string) : bool :=
  endswith (lower f) ".png" || endswith (lower f) ".jpg"
  || endswith (lower f) ".jpeg".

(** [os.path.join(a, b)] on a POSIX system. *)
Definition path_join (a b : string) : string :=
  if String.prefix "/" b then b
  else if (a =? "") || endswith a "/" then a +:+ b
  else a +:+ "/" +:+ b.

(** The part of [s] after its last ["/"], scanning with the part read since
    the last separator in [acc] (reversed). *)
Fixpoint basename_from (acc : string) (s : string) : string :=
  match s with
  | EmptyString => String.rev acc
  | String c s' =>
      if Ascii.eqb c "/"%char then basename_from EmptyString s'
      else basename_from (String c acc) s'
  end.

(** [os.path.basename(p)] *)
Definition basename (p : string) : string := basename_from EmptyString p.

(** [sorted(l)] on strings. *)
Fixpoint insert_sorted (x : string) (l : list string) : list string :=
  match l with
  | [] => [x]
  | y :: l' => if String.leb x y then x :: l else y :: insert_sorted x l'
  end.

Definition sorted (l : list string) : list string := foldr insert_sorted [] l.

(** A truthy [str]: not empty. *)
Definition nonempty (s : string) : bool := negb (s =? "").

Local Close Scope string_scope.

(** ** The outside world

    The collaborators of the program: the widgets, the decoder, the archives
    and files on disk, and the standard output.  Limits of the widget
    toolkit itself (the range of a C [int], what a widget does with a
    negative height) are not modelled: a setter records its argument. *)

(** What the widgets and the decoder answer during one event:
    [scroll_area.viewport().width()] and [.height()], the value of the
    vertical scroll bar, and whether reading the entry [local_idx] of archive
    [file_idx], decoding it and scaling it to [(width, height)] goes through
    without an exception. *)
Record world := {
  viewport_width : Z;
  viewport_height : Z;
  scroll_bar_value : Z;
  decodes : nat -> nat -> Z -> Z -> bool;
}.

(** An archive as [zipfile] shows it: the entry names in archive order, and
    for each name what [Image.open] on the bytes of that entry reports,
    [(width, height)], or [None] when reading or decoding the header raises. *)
Record zip_archive := {
  namelist : list string;
  probe : string -> option (Z * Z);
}.

(** A document that [json.load] returns. *)
#[local] Unset Elimination Schemes.
Inductive json :=
  | JNull
  | JBool (b : bool)
  | JInt (n : Z)
  | JString (s : string)
  | JArray (items : list json)
  | JObject (members : gmap string json).
#[local] Set Elimination Schemes.

(** What is behind a path that exists: something that cannot be opened for
    reading, text that is not JSON, or the text of a JSON document
    ([json.dump] writes it, [json.load] reads it back). *)
Inductive file_content :=
  | Unreadable
  | NotJson
  | Json (doc : json).

(** How [with open(path, 'w') as f: json.dump(state, f)] ends at a path.
    [Stored]: every statement goes through and the file can be read back.
    [StoredUnreadable]: every statement goes through, but the file cannot be
    opened for reading (a file that may be written and not read).
    [Refused]: [open(path, 'w')] raises, and the path is as it was.
    [Broken remains]: [open(path, 'w')] goes through, which empties the file,
    and [json.dump] or the flush on leaving the [with] raises; [remains] is what
    is behind the path afterwards, as a rule text that is not JSON. *)
Inductive write_outcome :=
  | Stored
  | StoredUnreadable
  | Refused
  | Broken (remains : file_content).

Record filesystem := {
  (** [os.listdir(folder)], in the order the system gives the names *)
  listdir : string -> list string;
  (** [zipfile.ZipFile(path)]; a path that is absent here raises *)
  zip_files : gmap string zip_archive;
  (** the files [os.path.exists] and [open(path, 'r')] see *)
  files : gmap string file_content;
  (** how writing a state file at a path ends *)
  writes : string -> write_outcome;
}.

(** The same files, with [content] behind [path]. *)
Definition with_file (fs : filesystem) (path : string) (content : file_content)
    : filesystem :=
  {| listdir := listdir fs; zip_files := zip_files fs;
     files := <[path := content]> (files fs); writes := writes fs |}.

(** A line on the standard output, one constructor per [print] of the
    program; the text of a caught exception, with which three of them end,
    is left out. *)
Inductive log_line :=
  | ErrorLoadingImage (global_index : nat)
  | RestoringScrollPosition (scroll_pos : json)
  | ErrorRestoringState
  | SavingScrollPosition (scroll_pos : Z)
  | ErrorSavingState.

(** ** The viewer's state

    One record per Python object: the dictionaries of [self.cbzs], the
    [PageLabel] widgets and the [CBZViewer] itself.  The open [ZipFile] handle
    of a [cbz] is not kept: what reading and decoding an entry returns is an
    answer of the [world]. *)

Record cbz := {
  images : list string;
  page_sizes : list (Z * Z);
  file_name : string;
}.

Record PageLabel := {
  global_index : nat;
  pixmap_loaded : bool;
  loaded_width : Z;
  (** the size of the pixmap the label shows, [None] for the null pixmap *)
  pixmap : option (Z * Z);
  (** the last [setFixedHeight], [None] while the label is free to resize *)
  fixed_height : option Z;
}.

(** The text of the page indicator, before formatting. *)
Record indicator_text := {
  current_file : string;
  local_page : Z;
  local_total : nat;
  current_page : Z;
  of_total_pages : nat;
  percentage : Z;
}.

Record viewer := {
  cbzs : list cbz;
  page_to_file_map : list (nat * nat);
  file_page_starts : list Z;
  labels : list PageLabel;
  cumulative_heights : list Z;
  total_pages : nat;
  total_height : Z;
  folder_path : option string;
  container_height : option Z;
  indicator : option indicator_text;
}.

(** [PageLabel.__init__] *)
Definition new_label (i : nat) : PageLabel :=
  {| global_index := i; pixmap_loaded := false; loaded_width := 0;
     pixmap := None; fixed_height := None |}.

Definition setFixedHeight (height : Z) (lbl : PageLabel) : PageLabel :=
  {| global_index := global_index lbl; pixmap_loaded := pixmap_loaded lbl;
     loaded_width := loaded_width lbl; pixmap := pixmap lbl;
     fixed_height := Some height |}.

(** [self.page_to_file_map[global_idx]] followed by
    [self.cbzs[file_idx]['page_sizes'][local_idx]]. *)
Definition page_size (v : viewer) (global_idx : nat) : option (Z * Z) :=
  '(file_idx, local_idx) ← page_to_file_map v !! global_idx;
  c ← cbzs v !! file_idx;
  page_sizes c !! local_idx.

(** ** Page cache: [PageLabel.load_pixmap] and [PageLabel.unload_pixmap] *)

(** The guard of [load_pixmap]: the label already holds a pixmap made for
    the current width. *)
Definition loaded_for (current_width : Z) (lbl : PageLabel) : bool :=
  pixmap_loaded lbl && (loaded_width lbl =? current_width).

(** The body of the [try]: [Some height] when every statement up to
    [setPixmap] goes through, [None] when one of them raises. *)
Definition try_decode (v : viewer) (w : world) (current_width : Z)
    (lbl : PageLabel) : option Z :=
  '(file_idx, local_idx) ← page_to_file_map v !! global_index lbl;
  c ← cbzs v !! file_idx;
  _ ← images c !! local_idx;
  size ← page_sizes c !! local_idx;
  height ← page_height current_width size;
  if decodes w file_idx local_idx current_width height then Some height
  else None.

(** [load_pixmap]: the label afterwards, and what the call prints. *)
Definition load_pixmap (v : viewer) (w : world) (lbl : PageLabel)
    : PageLabel * list log_line :=
  let current_width := viewport_width w - 20 in
  if loaded_for current_width lbl then (lbl, [])
  else
    match try_decode v w current_width lbl with
    | Some height =>
        ({| global_index := global_index lbl; pixmap_loaded := true;
            loaded_width := current_width;
            pixmap := Some (current_width, height);
            fixed_height := Some height |}, [])
    | None => (lbl, [ErrorLoadingImage (global_index lbl)])
    end.

Definition unload_pixmap (lbl : PageLabel) : PageLabel :=
  if negb (pixmap_loaded lbl) then lbl
  else
    {| global_index := global_index lbl; pixmap_loaded := false;
       loaded_width := 0; pixmap := None; fixed_height := fixed_height lbl |}.

(** ** Loops that may raise *)

(** [for x in l: s = f(s, x)], stopping at the first exception. *)
Fixpoint for_each {S A : Type} (f : S -> A -> option S) (s : S) (l : list A)
    : option S :=
  match l with
  | [] => Some s
  | x :: l' => s' ← f s x; for_each f s' l'
  end.

(** [range(n)] *)
Definition range (n : nat) : list nat := seq 0 n.

(** ** Layout model: [CBZViewer.update_heights] *)

Record layout := {
  cumulative : Z;
  table : list Z;
  sized : list PageLabel;
}.

Definition update_heights_step (v : viewer) (width : Z) (acc : layout)
    (global_idx : nat) : option layout :=
  size ← page_size v global_idx;
  height ← page_height width size;
  lbl ← sized acc !! global_idx;
  Some {| cumulative := cumulative acc + height;
          table := table acc ++ [cumulative acc + height];
          sized := <[global_idx := setFixedHeight height lbl]> (sized acc) |}.

Definition update_heights (v : viewer) (w : world) : option viewer :=
  let width := viewport_width w - 20 in
  acc ← for_each (update_heights_step v width)
        {| cumulative := 0; table := [0]; sized := labels v |}
        (range (total_pages v));
  let total := if 0 <? cumulative acc then cumulative acc else 100 in
  Some {| cbzs := cbzs v; page_to_file_map := page_to_file_map v;
          file_page_starts := file_page_starts v;
          labels := sized acc;
          cumulative_heights := table acc;
          total_pages := total_pages v;
          total_height := total;
          folder_path := folder_path v;
          container_height := Some total;
          indicator := indicator v |}.

(** ** Window manager: [CBZViewer.on_scroll] *)

(** [next(i for i, cum in enumerate(l) if cum > x)], counting from [i];
    [None] is [StopIteration]. *)
Fixpoint next_index_above (i : nat) (l : list Z) (x : Z) : option nat :=
  match l with
  | [] => None
  | cum :: l' => if x <? cum then Some i else next_index_above (S i) l' x
  end.

(** The offset-to-page lookup, written out twice in [on_scroll] (for
    [scroll_pos] and for [scroll_pos + visible_height]): the [try] around
    [next(...) - 1], its [except StopIteration] and the [max(0, ...)] that
    follows. *)
Definition page_at_offset (v : viewer) (offset : Z) : Z :=
  let page :=
    match next_index_above 0 (cumulative_heights v) offset with
    | Some i => Z.of_nat i - 1
    | None => Z.of_nat (total_pages v) - 1
    end in
  Z.max 0 page.

Definition start_page (v : viewer) (w : world) : Z :=
  page_at_offset v (scroll_bar_value w).

Definition end_page (v : viewer) (w : world) : Z :=
  page_at_offset v (scroll_bar_value w + viewport_height w).

Definition load_start (v : viewer) (w : world) : Z :=
  Z.max 0 (start_page v w - 5).

Definition load_end (v : viewer) (w : world) : Z :=
  Z.min (Z.of_nat (total_pages v) - 1) (end_page v w + 5).

(** [load_start <= i <= load_end] *)
Definition in_window (v : viewer) (w : world) (i : nat) : bool :=
  (load_start v w <=? Z.of_nat i) && (Z.of_nat i <=? load_end v w).

(** One turn of the sweep, on the labels and the lines printed so far:
    [self.labels[i].load_pixmap()] or [self.labels[i].unload_pixmap()]. *)
Definition sweep_step (v : viewer) (w : world)
    (acc : list PageLabel * list log_line) (i : nat)
    : option (list PageLabel * list log_line) :=
  let '(lbls, out) := acc in
  lbl ← lbls !! i;
  if in_window v w i then
    let '(lbl', lines) := load_pixmap v w lbl in
    Some (<[i := lbl']> lbls, out ++ lines)
  else Some (<[i := unload_pixmap lbl]> lbls, out).

Definition sweep (v : viewer) (w : world)
    : option (list PageLabel * list log_line) :=
  for_each (sweep_step v w) (labels v, []) (range (total_pages v)).

(** The lines after the sweep, which fill the page indicator. *)
Definition indicator_of (v : viewer) (w : world) : option indicator_text :=
  let scroll_pos := scroll_bar_value w in
  let start_page := start_page v w in
  let current_page := Z.max 1 (start_page + 1) in
  percentage ←
    (if 0 <? total_height v then
       q ← Float64.int_true_div scroll_pos (total_height v);
       p ← Float64.mul_int q 100;
       Float64.to_int p
     else Some 0);
  let len_cbzs := Z.of_nat (length (cbzs v)) in
  let file_idx :=
    match next_index_above 0 (file_page_starts v) start_page with
    | Some i => Z.of_nat i - 1
    | None => len_cbzs - 1
    end in
  let file_idx := Z.max 0 (Z.min file_idx (len_cbzs - 1)) in
  current_file ←
    (if file_idx <? len_cbzs then file_name <$> cbzs v !! Z.to_nat file_idx
     else Some EmptyString);
  file_start ← file_page_starts v !! Z.to_nat file_idx;
  let local_page := Z.max 1 (start_page - file_start + 1) in
  local_total ←
    (if file_idx <? len_cbzs
     then (fun c => length (images c)) <$> cbzs v !! Z.to_nat file_idx
     else Some 0%nat);
  Some {| current_file := current_file; local_page := local_page;
          local_total := local_total; current_page := current_page;
          of_total_pages := total_pages v; percentage := percentage |}.

Definition with_labels (v : viewer) (lbls : list PageLabel)
    (ind : option indicator_text) : viewer :=
  {| cbzs := cbzs v; page_to_file_map := page_to_file_map v;
     file_page_starts := file_page_starts v;
     labels := lbls;
     cumulative_heights := cumulative_heights v;
     total_pages := total_pages v;
     total_height := total_height v;
     folder_path := folder_path v;
     container_height := container_height v;
     indicator := ind |}.

(** [on_scroll]: the viewer afterwards and the lines printed, or [None]
    when an exception leaves the handler. *)
Definition on_scroll (v : viewer) (w : world)
    : option (viewer * list log_line) :=
  if (total_pages v =? 0)%nat then Some (v, [])
  else
    '(lbls, out) ← sweep v w;
    ind ← indicator_of (with_labels v lbls (indicator v)) w;
    Some (with_labels v lbls (Some ind), out).

(** [on_resize]: the layout is recomputed for the new viewport, then the
    window is swept. *)
Definition on_resize (v : viewer) (w : world)
    : option (viewer * list log_line) :=
  v' ← update_heights v w; on_scroll v' w.

(** ** Archive catalogue: [CBZViewer.load_folder], [CBZViewer.load_single_cbz] *)

(** [CBZViewer.__init__], the fields set before a path is loaded. *)
Definition init_viewer : viewer :=
  {| cbzs := []; page_to_file_map := []; file_page_starts := [];
     labels := []; cumulative_heights := [0]; total_pages := 0;
     total_height := 0; folder_path := None; container_height := None;
     indicator := None |}.

(** [sorted([f for f in zip_file.namelist() if f.lower().endswith(...)])] *)
Definition image_entries (z : zip_archive) : list string :=
  sorted (List.filter is_image_name (namelist z)).

(** The local variables and fields that the loop of [load_folder] updates. *)
Record scan := {
  scan_cbzs : list cbz;
  scan_map : list (nat * nat);
  scan_starts : list Z;
  global_page_idx : nat;
}.

(** The probe of one entry in [load_folder]: [try: ... except: (0, 0)]. *)
Definition probe_or_fallback (z : zip_archive) (img_path : string) : Z * Z :=
  match probe z img_path with
  | Some size => size
  | None => (0, 0)
  end.

(** One turn of [for file_path in cbz_files]. *)
Definition load_folder_step (fs : filesystem) (s : scan) (file_path : string)
    : scan :=
  match zip_files fs !! file_path with
  | None => s
  | Some z =>
      let images := image_entries z in
      match images with
      | [] => s
      | _ :: _ =>
          let page_sizes := map (probe_or_fallback z) images in
          let cbzs' :=
            scan_cbzs s ++ [{| images := images; page_sizes := page_sizes;
                               file_name := basename file_path |}] in
          let file_idx := (length cbzs' - 1)%nat in
          let total := (global_page_idx s + length images)%nat in
          {| scan_cbzs := cbzs';
             scan_map := scan_map s
                         ++ map (fun local_idx => (file_idx, local_idx))
                                (range (length images));
             scan_starts := scan_starts s ++ [Z.of_nat total];
             global_page_idx := total |}
      end
  end.

(** [sorted([os.path.join(folder_path, f) for f in os.listdir(folder_path)
            if f.lower().endswith(('.cbz', '.zip'))])] *)
Definition cbz_files (fs : filesystem) (folder : string) : list string :=
  sorted (map (path_join folder) (List.filter is_archive_name (listdir fs folder))).

(** [load_folder] up to [self.total_pages = global_page_idx]. *)
Definition load_folder_scan (fs : filesystem) (v : viewer) (folder : string)
    : scan :=
  foldl (load_folder_step fs)
        {| scan_cbzs := cbzs v; scan_map := []; scan_starts := [0];
           global_page_idx := 0 |}
        (cbz_files fs folder).

(** The end of both loaders, once the pages are known: the labels are made, the layout is
    computed and the window is swept (the last four statements of both
    loaders). *)
Definition show_pages (v : viewer) (w : world)
    : option (viewer * list log_line) :=
  let v' :=
    {| cbzs := cbzs v; page_to_file_map := page_to_file_map v;
       file_page_starts := file_page_starts v;
       labels := map new_label (range (total_pages v));
       cumulative_heights := cumulative_heights v;
       total_pages := total_pages v; total_height := total_height v;
       folder_path := folder_path v; container_height := container_height v;
       indicator := indicator v |} in
  v'' ← update_heights v' w; on_scroll v'' w.

Definition load_folder (fs : filesystem) (w : world) (v : viewer)
    (folder : string) : option (viewer * list log_line) :=
  let s := load_folder_scan fs v folder in
  let v' :=
    {| cbzs := scan_cbzs s; page_to_file_map := scan_map s;
       file_page_starts := scan_starts s;
       labels := labels v; cumulative_heights := cumulative_heights v;
       total_pages := global_page_idx s; total_height := total_height v;
       folder_path := Some folder; container_height := container_height v;
       indicator := indicator v |} in
  if (total_pages v' =? 0)%nat then Some (v', []) else show_pages v' w.

Definition load_single_cbz (fs : filesystem) (w : world) (v : viewer)
    (path : string) : option (viewer * list log_line) :=
  z ← zip_files fs !! path;
  let images := image_entries z in
  if (length images =? 0)%nat then
    Some ({| cbzs := cbzs v; page_to_file_map := page_to_file_map v;
             file_page_starts := file_page_starts v;
             labels := labels v; cumulative_heights := cumulative_heights v;
             total_pages := 0; total_height := total_height v;
             folder_path := folder_path v;
             container_height := container_height v;
             indicator := indicator v |}, [])
  else
    page_sizes ← mapM (probe z) images;
    show_pages
      {| cbzs := [{| images := images; page_sizes := page_sizes;
                     file_name := basename path |}];
         page_to_file_map := map (fun i => (0%nat, i)) (range (length images));
         file_page_starts := [0; Z.of_nat (length images)];
         labels := labels v; cumulative_heights := cumulative_heights v;
         total_pages := length images; total_height := total_height v;
         folder_path := folder_path v;
         container_height := container_height v;
         indicator := indicator v |} w.

(** ** Session state: [CBZViewer.restore_state], [CBZViewer.closeEvent] *)

(** [if self.folder_path:] with the folder bound: [None] and the empty
    string are false. *)
Definition session_folder (v : viewer) : option string :=
  match folder_path v with
  | Some folder => if nonempty folder then Some folder else None
  | None => None
  end.

Definition state_file (folder : string) : string :=
  path_join folder ".cbzviewer_state.json".

(** [state.get('scroll_pos', 0)]; only a [dict] has [get], on anything else
    the call raises [AttributeError]. *)
Definition get_scroll_pos (state : json) : option json :=
  match state with
  | JObject members => Some (default (JInt 0) (members !! "scroll_pos"%string))
  | _ => None
  end.

(** [restore_state]: the value handed to the scroll bar's [setValue], or
    [None] when nothing is restored, and the lines printed. *)
Definition restore_state (v : viewer) (fs : filesystem)
    : option json * list log_line :=
  match session_folder v with
  | None => (None, [])
  | Some folder =>
      match files fs !! state_file folder with
      | None => (None, [])
      | Some (Json state) =>
          match get_scroll_pos state with
          | Some scroll_pos =>
              (Some scroll_pos, [RestoringScrollPosition scroll_pos])
          | None => (None, [ErrorRestoringState])
          end
      | Some Unreadable | Some NotJson => (None, [ErrorRestoringState])
      end
  end.

(** [closeEvent]: what the file system holds afterwards, and the lines
    printed.  The [try] covers the [open], the [json.dump] and the flush on
    leaving the [with]: a failure of any of them is caught and reported, but
    only a failure of the [open] leaves the file as it was.  The archives are
    closed as well, which leaves no trace here, and the directory listing is
    kept as it is: the name of the state file has no archive suffix, so no
    loader looks at it. *)
Definition closeEvent (v : viewer) (w : world) (fs : filesystem)
    : filesystem * list log_line :=
  match session_folder v with
  | Some folder =>
      let path := state_file folder in
      let scroll_pos := scroll_bar_value w in
      let state := JObject {[ "scroll_pos"%string := JInt scroll_pos ]} in
      match writes fs path with
      | Stored =>
          (with_file fs path (Json state), [SavingScrollPosition scroll_pos])
      | StoredUnreadable =>
          (with_file fs path Unreadable, [SavingScrollPosition scroll_pos])
      | Refused => (fs, [SavingScrollPosition scroll_pos; ErrorSavingState])
      | Broken remains =>
          (with_file fs path remains,
           [SavingScrollPosition scroll_pos; ErrorSavingState])
      end
  | None => (fs, [])
  end.

(** ** Events and single calls *)

(** The two events that lead to a sweep: the scroll bar's [valueChanged],
    connected to [on_scroll], and the window's [resizeEvent], which is
    [on_resize]. *)
Inductive event := Scroll | Resize.

Definition handle (e : event) (v : viewer) (w : world)
    : option (viewer * list log_line) :=
  match e with
  | Scroll => on_scroll v w
  | Resize => on_resize v w
  end.

(** The viewer whose cumulative table the sweep of [handle e] reads: the
    viewer itself on a scroll, the freshly laid out one on a resize. *)
Definition laid_out (e : event) (v : viewer) (w : world) : option viewer :=
  match e with
  | Scroll => Some v
  | Resize => update_heights v w
  end.

(** The call [self.labels[i].load_pixmap()] as a step of the whole viewer. *)
Definition call_load_pixmap (v : viewer) (w : world) (i : nat)
    : option (viewer * list log_line) :=
  lbl ← labels v !! i;
  let '(lbl', lines) := load_pixmap v w lbl in
  Some (with_labels v (<[i := lbl']> (labels v)) (indicator v), lines).

(** A label whose flag, loaded width and pixmap go together, as they do
    from [PageLabel.__init__] on: a loaded label shows a pixmap of the width
    it was loaded for, an unloaded one shows the null pixmap and has the
    loaded width 0. *)
Definition coherent (lbl : PageLabel) : Prop :=
  if pixmap_loaded lbl
  then exists height, pixmap lbl = Some (loaded_width lbl, height)
  else pixmap lbl = None /\ loaded_width lbl = 0.

(** The label [lbl'] is the label [lbl] released, field by field: it keeps
    its page and its fixed height; it is not loaded; and if [lbl] was loaded,
    its pixmap has been replaced by the null pixmap and its loaded width by
    0, while a label that was not loaded is left as it was. *)
Definition released (lbl lbl' : PageLabel) : Prop :=
  global_index lbl' = global_index lbl
  /\ fixed_height lbl' = fixed_height lbl
  /\ pixmap_loaded lbl' = false
  /\ (if pixmap_loaded lbl
      then pixmap lbl' = None /\ loaded_width lbl' = 0
      else pixmap lbl' = pixmap lbl /\ loaded_width lbl' = loaded_width lbl).

(** What the sweep has done to page [i] when [v'] follows [v]: inside the
    window the label went through [load_pixmap]; outside it went through
    [unload_pixmap], it is released, and, the label having been coherent, it
    shows the null pixmap afterwards. *)
Definition swept_page (v : viewer) (w : world) (v' : viewer) (i : nat) : Prop :=
  exists lbl lbl',
    labels v !! i = Some lbl /\ labels v' !! i = Some lbl'
    /\ (load_start v w <= Z.of_nat i <= load_end v w ->
        lbl' = (load_pixmap v w lbl).1)
    /\ (~ (load_start v w <= Z.of_nat i <= load_end v w) ->
        lbl' = unload_pixmap lbl /\ pixmap_loaded lbl' = false
        /\ released lbl lbl'
        /\ (coherent lbl ->
            pixmap lbl' = None /\ loaded_width lbl' = 0
            /\ coherent lbl')).

(** ** Notions the properties are stated with *)

(** The layout height of page [i] for the viewport of [w], as
    [update_heights] computes it in one turn of its loop. *)
Definition layout_height (v : viewer) (w : world) (i : nat) : option Z :=
  page_size v i ≫= page_height (viewport_width w - 20).

(** The layout heights of all pages, in page order. *)
Definition layout_heights (v : viewer) (w : world) : option (list Z) :=
  mapM (layout_height v w) (range (total_pages v)).

(** The running sums [c + h1], [c + h1 + h2], ... *)
Fixpoint sums_from (c : Z) (hs : list Z) : list Z :=
  match hs with
  | [] => []
  | h :: hs' => (c + h) :: sums_from (c + h) hs'
  end.

Definition prefix_sums (hs : list Z) : list Z := 0 :: sums_from 0 hs.

Definition sum_heights (hs : list Z) : Z := foldr Z.add 0 hs.

(** [cumulative[totalPages]], the last entry of the table. *)
Definition last_cumulative (v : viewer) : option Z :=
  cumulative_heights v !! total_pages v.

(** The nearest integer to [p / q] for [0 < q], halves upward. *)
Definition round_div (p q : Z) : Z := (2 * p + q) / (2 * q).

(** The height as the specification words it:
    [round(naturalHeight * viewportWidth / naturalWidth)], and [100] when
    [naturalWidth <= 0]. *)
Definition spec_scaled_height (width : Z) (size : Z * Z) : Z :=
  let '(natural_width, natural_height) := size in
  if natural_width <=? 0 then 100
  else round_div (natural_height * width) natural_width.

(** The total height as the specification words it:
    [max(cumulative[total], 1)]. *)
Definition spec_total_height (last : Z) : Z := Z.max last 1.

(** A size or an offset of moderate magnitude, as those of real images and
    widgets are. *)
Definition small (n : Z) : Prop := Z.abs n < 2 ^ 62.

(** A viewer with a label for every page, a start for every archive when
    there are pages, and a recorded size of moderate height for every page:
    what the loaders leave behind. *)
Definition ready (v : viewer) : Prop :=
  (total_pages v <= length (labels v))%nat
  /\ ((0 < total_pages v)%nat ->
      (length (cbzs v) < length (file_page_starts v))%nat)
  /\ forall i, (i < total_pages v)%nat ->
       exists orig_width orig_height,
         page_size v i = Some (orig_width, orig_height) /\ small orig_height.

(** A viewport and a scroll offset of moderate magnitude. *)
Definition moderate (w : world) : Prop :=
  small (viewport_width w - 20) /\ small (scroll_bar_value w).

(** A file system whose images have natural heights of moderate magnitude. *)
Definition tame (fs : filesystem) : Prop :=
  forall file_path z img_path orig_width orig_height,
    zip_files fs !! file_path = Some z ->
    probe z img_path = Some (orig_width, orig_height) -> small orig_height.

(** What the loop of [load_folder] keeps true of its variables: one start
    more than archives, one pair per global page, and every pair pointing at
    a recorded size of moderate height. *)
Definition scanned (s : scan) : Prop :=
  length (scan_starts s) = S (length (scan_cbzs s))
  /\ length (scan_map s) = global_page_idx s
  /\ forall i file_idx local_idx,
       scan_map s !! i = Some (file_idx, local_idx) ->
       exists c orig_width orig_height,
         scan_cbzs s !! file_idx = Some c
         /\ page_sizes c !! local_idx = Some (orig_width, orig_height)
         /\ small orig_height.

(** A printed line that reports a page that could not be materialised. *)
Definition is_image_error (line : log_line) : Prop :=
  exists i, line = ErrorLoadingImage i.

(** A table in which no entry is below an earlier one. *)
Definition non_decreasing (l : list Z) : Prop :=
  forall i j a b, (i <= j)%nat -> l !! i = Some a -> l !! j = Some b -> a <= b.

(** An archive of the folder as the loop of [load_folder] records it, and
    [None] when the loop skips it: the file does not open, or it holds no
    recognised image entry. *)
Definition open_archive (fs : filesystem) (file_path : string) : option cbz :=
  z ← zip_files fs !! file_path;
  match image_entries z with
  | [] => None
  | _ :: _ =>
      Some {| images := image_entries z;
              page_sizes := map (probe_or_fallback z) (image_entries z);
              file_name := basename file_path |}
  end.

(** The global pages of the archive number [file_idx]. *)
Definition pages_of (file_idx : nat) (c : cbz) : list (nat * nat) :=
  map (fun local_idx => (file_idx, local_idx)) (range (length (images c))).

(** The order [sorted] sorts by. *)
Definition leb_string (a b : string) : Prop := String.leb a b = true.

(** The number of pages of a list of archives. *)
Definition page_count (l : list cbz) : nat :=
  list_sum (map (fun c => length (images c)) l).

(** ** Viewers and worlds for the examples *)

(** The viewer as [load_single_cbz] has it when it reaches [update_heights]
    for an archive ["book.cbz"] whose sorted image entries have the sizes
    [sizes]. *)
Definition viewer_of_pages (sizes : list (Z * Z)) : viewer :=
  let n := length sizes in
  {| cbzs := [{| images := map (fun _ => "page.png"%string) sizes;
                 page_sizes := sizes; file_name := "book.cbz" |}];
     page_to_file_map := map (fun i => (0%nat, i)) (range n);
     file_page_starts := [0; Z.of_nat n];
     labels := map new_label (range n);
     cumulative_heights := [0]; total_pages := n; total_height := 0;
     folder_path := None; container_height := None; indicator := None |}.

(** A world in which every decode succeeds. *)
Definition calm_world (viewport_w viewport_h scroll : Z) : world :=
  {| viewport_width := viewport_w; viewport_height := viewport_h;
     scroll_bar_value := scroll; decodes := fun _ _ _ _ => true |}.

(** A world in which every decode raises. *)
Definition failing_world (viewport_w viewport_h scroll : Z) : world :=
  {| viewport_width := viewport_w; viewport_height := viewport_h;
     scroll_bar_value := scroll; decodes := fun _ _ _ _ => false |}.

(** A folder ["/comics"] with one readable archive: a single 1600 x 2400
    page. *)
Definition one_book : filesystem :=
  {| listdir := fun _ => ["book.cbz"%string];
     zip_files :=
       {[ "/comics/book.cbz"%string :=
            {| namelist := ["page.png"%string];
               probe := fun _ => Some (1600, 2400) |} ]};
     files := ∅;
     writes := fun _ => Stored |}.

(** Twenty pages of 800 x 1200. *)
Definition twenty_pages : viewer := viewer_of_pages (replicate 20 (800, 1200)).

(** The folder of the concatenation scenario: [A.cbz] with three pages,
    [B.cbz] with no image entry, [C.cbz] with two pages; the system lists
    them in another order. *)
Definition abc_folder : filesystem :=
  {| listdir := fun _ => ["C.cbz"; "notes.txt"; "A.cbz"; "B.cbz"]%string;
     zip_files :=
       {[ "/comics/A.cbz"%string :=
            {| namelist := ["3.png"; "1.png"; "2.png"]%string;
               probe := fun _ => Some (800, 1200) |};
          "/comics/B.cbz"%string :=
            {| namelist := ["readme.txt"; "cover.gif"]%string;
               probe := fun _ => None |};
          "/comics/C.cbz"%string :=
            {| namelist := ["b.jpg"; "a.jpg"]%string;
               probe := fun _ => Some (1600, 2400) |} ]};
     files := ∅;
     writes := fun _ => Stored |}.

(** A folder without any archive. *)
Definition empty_folder : filesystem :=
  {| listdir := fun _ => ["notes.txt"%string];
     zip_files := ∅;
     files := ∅;
     writes := fun _ => Stored |}.

(** The folder [abc_folder] with a fourth file, [D.zip], that is not a zip
    file. *)
Definition abcd_folder : filesystem :=
  {| listdir := fun _ => ["D.zip"; "C.cbz"; "A.cbz"; "B.cbz"]%string;
     zip_files := zip_files abc_folder;
     files := ∅;
     writes := fun _ => Stored |}.

(** A folder ["/comics"] whose only archive has a good first page and a second
    page that [Image.open] cannot read. *)
Definition damaged_book : filesystem :=
  {| listdir := fun _ => ["bad.cbz"%string];
     zip_files :=
       {[ "/comics/bad.cbz"%string :=
            {| namelist := ["1.png"; "2.png"]%string;
               probe := fun name =>
                 if (name =? "1.png")%string then Some (800, 1200) else None |} ]};
     files := ∅;
     writes := fun _ => Stored |}.

(** The same files on a medium that refuses every write. *)
Definition read_only (fs : filesystem) : filesystem :=
  {| listdir := listdir fs; zip_files := zip_files fs;
     files := files fs; writes := fun _ => Refused |}.

(** The same files, where what is written cannot be read back: a state file
    with write permission and without read permission. *)
Definition write_only (fs : filesystem) : filesystem :=
  {| listdir := listdir fs; zip_files := zip_files fs;
     files := files fs; writes := fun _ => StoredUnreadable |}.

(** The same files on a medium that fills up while the state is written: the
    file is opened, and so emptied, and the write fails. *)
Definition full_disk (fs : filesystem) : filesystem :=
  {| listdir := listdir fs; zip_files := zip_files fs;
     files := files fs; writes := fun _ => Broken NotJson |}.

(** A viewer whose source was the folder [folder]. *)
Definition folder_viewer (folder : string) : viewer :=
  {| cbzs := []; page_to_file_map := []; file_page_starts := [0];
     labels := []; cumulative_heights := [0]; total_pages := 0;
     total_height := 0; folder_path := Some folder; container_height := None;
     indicator := None |}.

(** ** Notions for the catalogue *)

(** The page counts of the archives, as [file_page_starts] adds them up. *)
Definition archive_lengths (l : list cbz) : list Z :=
  map (fun c => Z.of_nat (length (images c))) l.

(** A catalogue as the loaders build it: the page map lists the pages of
    archive 0, then those of archive 1, and so on; the starts are the running
    totals of the page counts; and every archive has a page, and a recorded
    size for each of its pages. *)
Definition catalogued (v : viewer) : Prop :=
  page_to_file_map v = concat (imap pages_of (cbzs v))
  /\ file_page_starts v = prefix_sums (archive_lengths (cbzs v))
  /\ total_pages v = page_count (cbzs v)
  /\ Forall (fun c => images c <> []
                      /\ length (page_sizes c) = length (images c)) (cbzs v).

(** ** Notions for the layout *)

(** Every label carries the index of its place in [self.labels]. *)
Definition numbered (v : viewer) : Prop :=
  forall i lbl, labels v !! i = Some lbl -> global_index lbl = i.

(** The labels and the cumulative table agree with the layout for [width]:
    the fixed height of the label of every page is the height that
    [page_height] gives the page at that width, and it is the step of the
    table at the page. *)
Definition sized_for (v : viewer) (width : Z) : Prop :=
  forall i, (i < total_pages v)%nat ->
    exists lbl h a,
      labels v !! i = Some lbl
      /\ page_size v i ≫= page_height width = Some h
      /\ fixed_height lbl = Some h
      /\ cumulative_heights v !! i = Some a
      /\ cumulative_heights v !! S i = Some (a + h).

(** ** Start-up: [CBZViewer.__init__] and [showEvent] *)

(** What the system and the user answer at start-up: [os.path.isdir],
    [os.path.isfile], and the path picked in the file dialog, the empty
    string when the dialog is cancelled. *)
Record desktop := {
  isdir : string -> bool;
  isfile : string -> bool;
  getOpenFileName : string;
}.

(** How a call ends: it returns, an exception leaves it, or [sys.exit()]
    ends the program. *)
Inductive outcome (A : Type) :=
  | Returned (a : A)
  | Raised
  | Exited.

Arguments Returned {A} a.
Arguments Raised {A}.
Arguments Exited {A}.

Definition of_option {A : Type} (r : option A) : outcome A :=
  match r with
  | Some a => Returned a
  | None => Raised
  end.

(** The [else] branch of [__init__]: the file dialog. *)
Definition load_from_dialog (d : desktop) (fs : filesystem) (w : world)
    : outcome (viewer * list log_line) :=
  let path := getOpenFileName d in
  if nonempty path then
    if isdir d path then of_option (load_folder fs w init_viewer path)
    else of_option (load_single_cbz fs w init_viewer path)
  else Exited.

(** [if path and os.path.isdir(path): ... elif path and os.path.isfile(path):
    ... else: ...] *)
Definition load_path (path : option string) (d : desktop) (fs : filesystem)
    (w : world) : outcome (viewer * list log_line) :=
  match path with
  | Some p =>
      if nonempty p && isdir d p then
        of_option (load_folder fs w init_viewer p)
      else if nonempty p && isfile d p then
        of_option (load_single_cbz fs w init_viewer p)
      else load_from_dialog d fs w
  | None => load_from_dialog d fs w
  end.

(** The window after [__init__]: the viewer, the scroll position handed to
    the scroll bar by [restore_state], and the lines printed. *)
Record started := {
  window : viewer;
  restored : option json;
  printed : list log_line;
}.

(** [CBZViewer.__init__]: the fields are set, the path is loaded, and
    [restore_state] is called. *)
Definition CBZViewer_init (path : option string) (d : desktop)
    (fs : filesystem) (w : world) : outcome started :=
  match load_path path d fs w with
  | Returned (v, out) =>
      let '(scroll_pos, out') := restore_state v fs in
      Returned {| window := v; restored := scroll_pos;
                  printed := out ++ out' |}
  | Raised => Raised
  | Exited => Exited
  end.

(** [showEvent]: [restore_state] once more. *)
Definition showEvent (v : viewer) (fs : filesystem)
    : option json * list log_line :=
  restore_state v fs.

(** ** A desktop for the examples *)

(** A system on which ["/comics"] is a directory and nothing else exists,
    and a user who cancels the dialog. *)
Definition comics_desktop : desktop :=
  {| isdir := fun p => (p =? "/comics")%string;
     isfile := fun _ => false;
     getOpenFileName := EmptyString |}.

(** ** Notions for the sweep *)

(** What one turn of the sweep makes of the label of page [i], and what it
    prints. *)
Definition sweep_label (v : viewer) (w : world) (i : nat) (lbl : PageLabel)
    : PageLabel :=
  if in_window v w i then (load_pixmap v w lbl).1 else unload_pixmap lbl.

Definition sweep_lines (v : viewer) (w : world) (i : nat) (lbl : PageLabel)
    : list log_line :=
  if in_window v w i then (load_pixmap v w lbl).2 else [].

(** The number of pages whose label holds a pixmap. *)
Definition loaded_pages (v : viewer) : nat :=
  length (List.filter pixmap_loaded (take (total_pages v) (labels v))).

(** ** Notions for file names *)

(** Whether a name holds the path separator. *)
Fixpoint has_sep (s : string) : bool :=
  match s with
  | EmptyString => false
  | String c s' => Ascii.eqb c "/"%char || has_sep s'
  end.

(** ** Sequences of events *)

(** The events of a session in the order the handlers get them, each with
    what the widgets answer while it is handled; the lines printed add up. *)
Fixpoint run_events (events : list (event * world)) (v : viewer)
    : option (viewer * list log_line) :=
  match events with
  | [] => Some (v, [])
  | (e, w) :: events' =>
      '(v', out) ← handle e v w;
      '(v'', out') ← run_events events' v';
      Some (v'', out ++ out')
  end.

(** ** Notions for comparing the loaders *)

(** The viewer [v] with [self.folder_path] set to [path]. *)
Definition with_folder_path (path : option string) (v : viewer) : viewer :=
  {| cbzs := cbzs v; page_to_file_map := page_to_file_map v;
     file_page_starts := file_page_starts v;
     labels := labels v;
     cumulative_heights := cumulative_heights v;
     total_pages := total_pages v;
     total_height := total_height v;
     folder_path := path;
     container_height := container_height v;
     indicator := indicator v |}.

(** ** The float 1.0 *)

Definition float_one : spec_float := S754_finite false 4503599627370496 (-52).

(** * Properties *)

(** ** The definitions at work *)

Example page_height_1600_2400 : page_height 800 (1600, 2400) = Some 1200.
Proof. vm_compute. reflexivity. Qed.

Example sorted_pages :
  sorted ["p10.png"; "p2.png"; "P3.png"; "p1.png"]%string
  = ["P3.png"; "p1.png"; "p10.png"; "p2.png"]%string.
Proof. reflexivity. Qed.

Example basename_join :
  basename (path_join "/comics/vol" "a.cbz") = "a.cbz"%string.
Proof. reflexivity. Qed.

Example image_names :
  map is_image_name
      ["a.PNG"; "b.JpEg"; "c.txt"; "png"; ".jpg"; "d.jpg.bak"]%string
  = [true; true; false; false; true; false].
Proof. reflexivity. Qed.

(** [viewer_of_pages] is what the single-file loader hands to the end of
    the load. *)
Example viewer_of_pages_loaded :
  load_single_cbz one_book (calm_world 820 600 0) init_viewer "/comics/book.cbz"
  = show_pages (viewer_of_pages [(1600, 2400)]) (calm_world 820 600 0).
Proof. vm_compute. reflexivity. Qed.

(** ** Float facts used by the layout *)

Module Float64Facts.
Import Float64.

Lemma binary_round_aux_sign s m e l :
  has_sign s (binary_round_aux prec emax s m e l).
Proof.
  unfold binary_round_aux.
  destruct (shr_fexp prec emax m e l) as [mrs' e'].
  destruct (shr_fexp prec emax _ e' loc_Exact) as [mrs'' e''].
  destruct (shr_m mrs'') as [|p|p]; simpl; trivial.
  destruct (e'' <=? emax - prec); simpl; trivial.
Qed.

Lemma finite_has_sign s x y : finite x = Some y -> has_sign s x -> has_sign s y.
Proof. destruct x; simpl; intros [= <-]; trivial. Qed.

Lemma of_int_sign n x : 0 <= n -> of_int n = Some x -> has_sign false x.
Proof.
  unfold of_int. intros Hn Hx. apply (finite_has_sign _ _ _ Hx).
  destruct n as [|p|p]; simpl; trivial; [|lia].
  unfold binary_round. destruct (shl_align _ _ _) as [mz ez].
  apply binary_round_aux_sign.
Qed.

Lemma int_true_div_sign a b x :
  0 <= a -> 0 < b -> int_true_div a b = Some x -> has_sign false x.
Proof.
  unfold int_true_div. intros Ha Hb Hx. apply (finite_has_sign _ _ _ Hx).
  destruct a as [|p|p], b as [|q|q]; simpl; trivial; try lia.
  destruct (SFdiv_core_binary _ _ _ _ _ _) as [[mz ez] lz].
  apply binary_round_aux_sign.
Qed.

Lemma SFmul_sign x y :
  has_sign false x -> has_sign false y -> has_sign false (SFmul prec emax x y).
Proof.
  destruct x as [sx|sx| |sx mx ex], y as [sy|sy| |sy my ey]; simpl; trivial.
  intros -> ->. apply binary_round_aux_sign.
Qed.

Lemma to_int_nonneg x n : has_sign false x -> to_int x = Some n -> 0 <= n.
Proof.
  destruct x as [s|s| |s m e]; simpl; try discriminate.
  - intros _ [= <-]. lia.
  - intros -> [= <-]. simpl. apply Z.shiftl_nonneg. lia.
Qed.

(** [int(x)] drops the fraction: for a positive [x = m * 2^e] it is the
    floor, and the sign is put back afterwards. *)
Lemma to_int_truncates s m e :
  to_int (S754_finite s m e)
  = Some (cond_Zopp s (if 0 <=? e then Z.pos m * 2 ^ e
                       else Z.pos m / 2 ^ (- e))).
Proof.
  simpl. f_equal. f_equal. destruct (Z.leb_spec 0 e).
  - apply Z.shiftl_mul_pow2; lia.
  - apply Z.shiftl_div_pow2; lia.
Qed.

(** *** No overflow on moderate operands

    Rounding a mantissa of magnitude below [2 ^ k] gives a float below
    [2 ^ (k + 1)], never an infinity, as long as [k] stays under the largest
    exponent. *)

Lemma digits2_pos_bounds p :
  2 ^ (Z.pos (digits2_pos p) - 1) <= Z.pos p < 2 ^ Z.pos (digits2_pos p).
Proof.
  induction p as [p IH|p IH|]; simpl digits2_pos.
  - rewrite Pos2Z.inj_succ, Z.pow_succ_r by lia.
    replace (Z.succ (Z.pos (digits2_pos p)) - 1) with (Z.succ (Z.pos (digits2_pos p) - 1)) by lia.
    rewrite Z.pow_succ_r by lia. lia.
  - rewrite Pos2Z.inj_succ, Z.pow_succ_r by lia.
    replace (Z.succ (Z.pos (digits2_pos p)) - 1) with (Z.succ (Z.pos (digits2_pos p) - 1)) by lia.
    rewrite Z.pow_succ_r by lia. lia.
  - simpl. lia.
Qed.

Lemma Zdigits2_nonneg m : 0 <= Zdigits2 m.
Proof. destruct m; simpl; lia. Qed.

Lemma Zdigits2_le m k : 0 <= m -> 0 <= k -> m < 2 ^ k -> Zdigits2 m <= k.
Proof.
  intros Hm Hk Hlt. destruct m as [|p|p]; simpl; [lia| |lia].
  pose proof (digits2_pos_bounds p) as [Hlo _].
  destruct (Z.le_gt_cases (Z.pos (digits2_pos p)) k) as [|Hgt]; [assumption|].
  assert (2 ^ k <= 2 ^ (Z.pos (digits2_pos p) - 1)) by (apply Z.pow_le_mono_r; lia).
  lia.
Qed.

Lemma Zdigits2_lt_pow m : 0 <= m -> m < 2 ^ Zdigits2 m.
Proof.
  intros Hm. destruct m as [|p|p]; simpl; [lia| |lia].
  apply digits2_pos_bounds.
Qed.

Lemma lt_pow_le m k k' : m < 2 ^ k -> k <= k' -> 0 <= k -> m < 2 ^ k'.
Proof.
  intros Hlt Hle Hk. assert (2 ^ k <= 2 ^ k') by (apply Z.pow_le_mono_r; lia). lia.
Qed.

Lemma shr_1_fits k r : 0 <= k -> fits k r -> fits (Z.max 0 (k - 1)) (shr_1 r).
Proof.
  unfold fits. intros Hk [Hlo Hhi]. destruct r as [m rb sb]. simpl in *.
  destruct (Z.eq_dec k 0) as [->|Hne].
  - simpl in Hhi. assert (m = 0) as -> by lia. simpl. lia.
  - replace (Z.max 0 (k - 1)) with (k - 1) by lia.
    assert (2 ^ k = 2 * 2 ^ (k - 1)) as Hpow.
    { rewrite <- Z.pow_succ_r by lia. f_equal. lia. }
    assert (0 < 2 ^ (k - 1)) by (apply Z.pow_pos_nonneg; lia).
    destruct m as [|[p|p|]|p]; simpl; lia.
Qed.

Lemma iter_shr_1_fits n : forall k r,
  0 <= k -> fits k r -> fits (Z.max 0 (k - Z.pos n)) (SpecFloat.iter_pos shr_1 n r).
Proof.
  induction n as [n IH|n IH|]; intros k r Hk Hfit; simpl.
  - apply (shr_1_fits k) in Hfit; [|lia].
    apply (IH (Z.max 0 (k - 1))) in Hfit; [|lia].
    apply (IH (Z.max 0 (Z.max 0 (k - 1) - Z.pos n))) in Hfit; [|lia].
    replace (Z.max 0 (k - Z.pos n~1)) with
      (Z.max 0 (Z.max 0 (Z.max 0 (k - 1) - Z.pos n) - Z.pos n)) by lia.
    exact Hfit.
  - apply (IH k) in Hfit; [|lia].
    apply (IH (Z.max 0 (k - Z.pos n))) in Hfit; [|lia].
    replace (Z.max 0 (k - Z.pos n~0)) with
      (Z.max 0 (Z.max 0 (k - Z.pos n) - Z.pos n)) by lia.
    exact Hfit.
  - apply shr_1_fits; assumption.
Qed.

Lemma shr_record_of_loc_m m l : shr_m (shr_record_of_loc m l) = m.
Proof. destruct l as [|[]]; reflexivity. Qed.

Lemma fexp_eq e : fexp prec emax e = Z.max (e - 53) (-1074).
Proof. reflexivity. Qed.

Lemma shr_fexp_fits m e l mrs e' :
  0 <= m -> shr_fexp prec emax m e l = (mrs, e') ->
  e <= e' <= Z.max e (Z.max (Zdigits2 m + e - 53) (-1074))
  /\ fits (Z.max 0 (Zdigits2 m + e - e')) mrs.
Proof.
  intros Hm. unfold shr_fexp, shr. rewrite fexp_eq.
  pose proof (Zdigits2_nonneg m) as Hd.
  pose proof (Zdigits2_lt_pow m Hm) as Hlt.
  assert (fits (Zdigits2 m) (shr_record_of_loc m l)) as Hfit.
  { unfold fits. rewrite shr_record_of_loc_m. lia. }
  destruct (Z.max (Zdigits2 m + e - 53) (-1074) - e) as [|n|n] eqn:Hn.
  - intros [= <- <-]. split; [lia|].
    replace (Z.max 0 (Zdigits2 m + e - e)) with (Zdigits2 m) by lia. exact Hfit.
  - intros [= <- <-]. split; [lia|].
    replace (Zdigits2 m + e - (e + Z.pos n)) with (Zdigits2 m - Z.pos n) by lia.
    apply iter_shr_1_fits; [lia | exact Hfit].
  - intros [= <- <-]. split; [lia|].
    replace (Z.max 0 (Zdigits2 m + e - e)) with (Zdigits2 m) by lia. exact Hfit.
Qed.

Lemma round_nearest_even_bounds m l :
  m <= round_nearest_even m l <= m + 1.
Proof.
  destruct l as [|[]]; simpl; try lia. destruct (Z.even m); lia.
Qed.

Lemma binary_round_aux_below s m e l k :
  0 <= m -> Zdigits2 m + e <= k -> -1074 <= k <= 1023 -> e <= 971 ->
  below (k + 1) (binary_round_aux prec emax s m e l).
Proof.
  intros Hm Hk Hrange He. unfold binary_round_aux.
  destruct (shr_fexp prec emax m e l) as [mrs' e'] eqn:H1.
  apply shr_fexp_fits in H1 as [He' Hfit']; [|exact Hm].
  pose proof (round_nearest_even_bounds (shr_m mrs') (loc_of_shr_record mrs')) as Hr.
  set (mr := round_nearest_even (shr_m mrs') (loc_of_shr_record mrs')) in *.
  destruct (shr_fexp prec emax mr e' loc_Exact) as [mrs'' e''] eqn:H2.
  unfold fits in Hfit'.
  pose proof (Zdigits2_nonneg m) as Hd.
  assert (0 <= mr) as Hmr by lia.
  assert (Zdigits2 mr <= Z.max 0 (Zdigits2 m + e - e') + 1) as Hdr.
  { apply Zdigits2_le; [lia | lia |].
    rewrite Z.pow_add_r by lia. simpl (2 ^ 1).
    assert (0 < 2 ^ Z.max 0 (Zdigits2 m + e - e')) by (apply Z.pow_pos_nonneg; lia).
    lia. }
  apply shr_fexp_fits in H2 as [He'' Hfit'']; [|exact Hmr].
  pose proof (Zdigits2_nonneg mr) as Hdr0.
  unfold fits in Hfit''.
  destruct (shr_m mrs'') as [|p|p] eqn:Hp; [exact I| |lia].
  assert (e'' <= 971) as He971 by lia.
  change (emax - prec) with 971.
  destruct (Z.leb_spec e'' 971) as [_|Hbad]; [|lia].
  unfold below. change (Zdigits2 (Z.pos p)) with (Z.pos (digits2_pos p)).
  assert (Zdigits2 (Z.pos p) <= Z.max 0 (Zdigits2 mr + e' - e'')) as Hdp.
  { apply Zdigits2_le; lia. }
  change (Zdigits2 (Z.pos p)) with (Z.pos (digits2_pos p)) in Hdp.
  lia.
Qed.

Lemma digits2_pos_iter_xO d : forall p,
  Z.pos (digits2_pos (Pos.iter xO p d)) = Z.pos (digits2_pos p) + Z.pos d.
Proof.
  induction d as [|d IH] using Pos.peano_ind; intros p.
  - simpl. lia.
  - rewrite Pos.iter_succ. simpl digits2_pos. rewrite Pos2Z.inj_succ, IH. lia.
Qed.

Lemma binary_round_below s p e k :
  Z.pos (digits2_pos p) + e <= k -> -1074 <= k <= 1023 -> e <= 971 ->
  below (k + 1) (binary_round prec emax s p e).
Proof.
  intros Hk Hrange He. unfold binary_round, shl_align.
  destruct (fexp prec emax (Z.pos (digits2_pos p) + e) - e) as [|d|d] eqn:Hd.
  - apply binary_round_aux_below; try assumption; lia.
  - apply binary_round_aux_below; try assumption; lia.
  - apply binary_round_aux_below; try lia.
    change (Zdigits2 (Z.pos (Pos.iter xO p d)))
      with (Z.pos (digits2_pos (Pos.iter xO p d))).
    rewrite digits2_pos_iter_xO. lia.
Qed.

Lemma finite_below k x : below k x -> finite x = Some x.
Proof. destruct x; simpl; intros H; try reflexivity; contradiction. Qed.

Lemma pos_digits_le p k : 0 <= k -> Z.pos p < 2 ^ k -> Z.pos (digits2_pos p) <= k.
Proof. intros Hk Hlt. apply (Zdigits2_le (Z.pos p)); lia. Qed.

Lemma of_int_below n k :
  Z.abs n < 2 ^ k -> 0 <= k <= 1023 ->
  exists x, of_int n = Some x /\ below (k + 1) x.
Proof.
  intros Hn Hk. unfold of_int.
  assert (below (k + 1) (binary_normalize prec emax n 0 false)) as Hb.
  { destruct n as [|p|p]; simpl; [exact I| |];
      (apply binary_round_below; [|lia|lia]);
      pose proof (pos_digits_le p k) as Hp; simpl in Hn; lia. }
  rewrite (finite_below _ _ Hb). eauto.
Qed.

Lemma SFdiv_core_below m1 m2 q e' l :
  SFdiv_core_binary prec emax (Z.pos m1) 0 (Z.pos m2) 0 = (q, e', l) ->
  0 <= q /\ e' <= 0 /\ Zdigits2 q + e' <= Z.pos (digits2_pos m1).
Proof.
  unfold SFdiv_core_binary.
  set (d1 := Zdigits2 (Z.pos m1)). set (d2 := Zdigits2 (Z.pos m2)).
  set (e0 := Z.min (fexp prec emax (d1 + 0 - (d2 + 0))) (0 - 0)).
  assert (e0 <= 0) as He0 by (unfold e0; lia).
  pose proof (Zdigits2_lt_pow (Z.pos m1) ltac:(lia)) as Hm1. fold d1 in Hm1.
  assert (0 <= d1) as Hd1 by apply Zdigits2_nonneg.
  set (m' := match 0 - 0 - e0 with
             | 0 => Z.pos m1 | Z.pos _ => Z.shiftl (Z.pos m1) (0 - 0 - e0)
             | Z.neg _ => 0 end).
  assert (0 <= m' < 2 ^ (d1 - e0)) as Hm'.
  { unfold m'. destruct (0 - 0 - e0) as [|s|s] eqn:Hs.
    - replace (d1 - e0) with d1 by lia. lia.
    - rewrite Z.shiftl_mul_pow2 by lia.
      replace (d1 - e0) with (d1 + Z.pos s) by lia.
      rewrite Z.pow_add_r by lia.
      assert (0 < 2 ^ Z.pos s) by (apply Z.pow_pos_nonneg; lia). nia.
    - lia. }
  clearbody m'.
  destruct (Z.div_eucl m' (Z.pos m2)) as [q0 r0] eqn:Hdiv.
  intros [= <- <- <-].
  assert (q0 = m' / Z.pos m2) as -> by (unfold Z.div; rewrite Hdiv; reflexivity).
  assert (0 <= m' / Z.pos m2 <= m') as Hq.
  { split; [apply Z.div_pos; lia|]. apply Z.div_le_upper_bound; [lia|].
    rewrite <- (Z.mul_1_l m') at 1. apply Z.mul_le_mono_nonneg_r; lia. }
  split; [lia|]. split; [lia|].
  assert (d1 = Z.pos (digits2_pos m1)) as Hd1' by reflexivity.
  assert (Zdigits2 (m' / Z.pos m2) <= d1 - e0); [|lia].
  apply Zdigits2_le; lia.
Qed.

Lemma int_true_div_below a b k :
  Z.abs a < 2 ^ k -> 0 <= k <= 1023 -> b <> 0 ->
  exists x, int_true_div a b = Some x /\ below (k + 1) x.
Proof.
  intros Ha Hk Hb. unfold int_true_div.
  assert (below (k + 1) (SFdiv prec emax (exact a) (exact b))) as Hbelow.
  { destruct a as [|p|p], b as [|q|q]; try contradiction; simpl; try exact I;
      destruct (SFdiv_core_binary prec emax (Z.pos p) 0 (Z.pos q) 0)
        as [[mz ez] lz] eqn:Hcore;
      apply SFdiv_core_below in Hcore as (Hq & He & Hd);
      pose proof (pos_digits_le p k) as Hp; simpl in Ha;
      apply binary_round_aux_below; lia. }
  rewrite (finite_below _ _ Hbelow). eauto.
Qed.

Lemma SFmul_below x y kx ky :
  below kx x -> below ky y -> -1074 <= kx + ky <= 972 ->
  below (kx + ky + 1) (SFmul prec emax x y).
Proof.
  destruct x as [sx|sx| |sx mx ex], y as [sy|sy| |sy my ey]; cbn [below SFmul];
    try contradiction; try (intros; exact I).
  intros Hx Hy Hk.
  change (Zdigits2 (Z.pos mx)) with (Z.pos (digits2_pos mx)) in Hx.
  change (Zdigits2 (Z.pos my)) with (Z.pos (digits2_pos my)) in Hy.
  pose proof (digits2_pos_bounds mx) as [_ Hmx].
  pose proof (digits2_pos_bounds my) as [_ Hmy].
  assert (Zdigits2 (Z.pos (mx * my))
          <= Z.pos (digits2_pos mx) + Z.pos (digits2_pos my)) as Hd.
  { apply Zdigits2_le; [lia | lia |].
    rewrite Z.pow_add_r by lia. rewrite Pos2Z.inj_mul. nia. }
  apply binary_round_aux_below; lia.
Qed.

End Float64Facts.

(** ** The layout height of one page *)

Lemma page_height_fallback width orig_width orig_height :
  orig_height <= 0 ->
  is_Some (scale_factor width orig_width) ->
  page_height width (orig_width, orig_height) = Some 100.
Proof.
  intros Hh [scale Hs]. unfold page_height. rewrite Hs. simpl.
  destruct (Z.ltb_spec 0 orig_height); [lia | reflexivity].
Qed.

Lemma page_height_unscaled width orig_width orig_height :
  orig_width <= 0 -> 0 < orig_height ->
  page_height width (orig_width, orig_height) = Some orig_height.
Proof.
  intros Hw Hh. unfold page_height, scale_factor.
  destruct (Z.ltb_spec 0 orig_width); [lia|]. simpl.
  destruct (Z.ltb_spec 0 orig_height); [|lia]. simpl. f_equal. lia.
Qed.

Lemma page_height_scaled width orig_width orig_height :
  0 < orig_width -> 0 < orig_height ->
  page_height width (orig_width, orig_height)
  = (q ← Float64.int_true_div width orig_width;
     p ← Float64.int_mul orig_height q;
     Float64.to_int p).
Proof.
  intros Hw Hh. unfold page_height, scale_factor.
  destruct (Z.ltb_spec 0 orig_width); [|lia].
  destruct (Float64.int_true_div width orig_width) as [q|]; simpl; [|reflexivity].
  destruct (Z.ltb_spec 0 orig_height); [reflexivity | lia].
Qed.

Lemma page_height_nonneg width size height :
  0 <= width -> page_height width size = Some height -> 0 <= height.
Proof.
  intros Hwidth. destruct size as [orig_width orig_height].
  destruct (Z.ltb_spec 0 orig_height) as [Hh|Hh].
  - destruct (Z.ltb_spec 0 orig_width) as [Hw|Hw].
    + rewrite page_height_scaled by assumption.
      destruct (Float64.int_true_div width orig_width) as [q|] eqn:Hq;
        simpl; [|discriminate].
      unfold Float64.int_mul.
      destruct (Float64.of_int orig_height) as [y|] eqn:Hy; simpl; [|discriminate].
      apply Float64Facts.to_int_nonneg, Float64Facts.SFmul_sign.
      * apply (Float64Facts.of_int_sign orig_height); [lia | assumption].
      * apply (Float64Facts.int_true_div_sign width orig_width); assumption.
    + rewrite page_height_unscaled by assumption. intros [= <-]. lia.
  - unfold page_height. destruct (scale_factor width orig_width); simpl;
      [|discriminate].
    destruct (Z.ltb_spec 0 orig_height); [lia|]. intros [= <-]. lia.
Qed.

(** ** The loop of [update_heights] *)

Section UpdateHeights.
Variable v : viewer.
Variable width : Z.

Let height_at (i : nat) : option Z := page_size v i ≫= page_height width.

Lemma for_each_update_heights idxs : forall acc acc',
  for_each (update_heights_step v width) acc idxs = Some acc' ->
  exists hs,
    mapM height_at idxs = Some hs
    /\ cumulative acc' = cumulative acc + sum_heights hs
    /\ table acc' = table acc ++ sums_from (cumulative acc) hs
    /\ length (sized acc') = length (sized acc).
Proof.
  induction idxs as [|i idxs IH]; intros acc acc' Hrun; simpl in Hrun.
  - injection Hrun as <-. exists []. simpl.
    rewrite app_nil_r. repeat split; lia.
  - destruct (update_heights_step v width acc i) as [acc1|] eqn:Hstep;
      simpl in Hrun; [|discriminate].
    unfold update_heights_step in Hstep.
    destruct (page_size v i) as [size|] eqn:Hsize; simpl in Hstep; [|discriminate].
    destruct (page_height width size) as [h|] eqn:Hh; simpl in Hstep; [|discriminate].
    destruct (sized acc !! i) as [lbl|] eqn:Hlbl; simpl in Hstep; [|discriminate].
    injection Hstep as <-.
    destruct (IH _ _ Hrun) as (hs & Hhs & Hcum & Htab & Hlen). simpl in *.
    exists (h :: hs). repeat split.
    + change (mapM height_at (i :: idxs) = Some (h :: hs)).
      apply mapM_Some_2. constructor.
      * unfold height_at. rewrite Hsize. simpl. exact Hh.
      * apply mapM_Some_1. exact Hhs.
    + rewrite Hcum. simpl. lia.
    + rewrite Htab, <- app_assoc. reflexivity.
    + rewrite Hlen. apply length_insert.
Qed.

Lemma for_each_update_heights_other idxs : forall acc acc' i,
  for_each (update_heights_step v width) acc idxs = Some acc' ->
  i ∉ idxs -> sized acc' !! i = sized acc !! i.
Proof.
  induction idxs as [|i0 idxs IH]; intros acc acc' i Hrun Hi; simpl in Hrun.
  - injection Hrun as <-. reflexivity.
  - destruct (update_heights_step v width acc i0) as [acc1|] eqn:Hstep;
      simpl in Hrun; [|discriminate].
    apply not_elem_of_cons in Hi as [Hne Hi].
    rewrite (IH _ _ _ Hrun Hi).
    unfold update_heights_step in Hstep.
    destruct (page_size v i0); simpl in Hstep; [|discriminate].
    destruct (page_height width p); simpl in Hstep; [|discriminate].
    destruct (sized acc !! i0); simpl in Hstep; [|discriminate].
    injection Hstep as <-. simpl. apply list_lookup_insert_ne. congruence.
Qed.

Lemma for_each_update_heights_label idxs : forall acc acc' j i,
  for_each (update_heights_step v width) acc idxs = Some acc' ->
  NoDup idxs -> idxs !! j = Some i ->
  exists h lbl,
    height_at i = Some h /\ sized acc !! i = Some lbl
    /\ sized acc' !! i = Some (setFixedHeight h lbl).
Proof.
  induction idxs as [|i0 idxs IH]; intros acc acc' j i Hrun Hnd Hj;
    simpl in Hrun; [discriminate|].
  destruct (update_heights_step v width acc i0) as [acc1|] eqn:Hstep;
    simpl in Hrun; [|discriminate].
  apply NoDup_cons in Hnd as [Hfresh Hnd].
  unfold update_heights_step in Hstep.
  destruct (page_size v i0) as [size|] eqn:Hsize; simpl in Hstep; [|discriminate].
  destruct (page_height width size) as [h|] eqn:Hh; simpl in Hstep; [|discriminate].
  destruct (sized acc !! i0) as [lbl|] eqn:Hlbl; simpl in Hstep; [|discriminate].
  injection Hstep as <-.
  destruct j as [|j]; simpl in Hj.
  - injection Hj as <-. exists h, lbl. repeat split.
    + unfold height_at. rewrite Hsize. simpl. exact Hh.
    + exact Hlbl.
    + rewrite (for_each_update_heights_other _ _ _ _ Hrun Hfresh). simpl.
      apply list_lookup_insert_eq. eapply lookup_lt_Some, Hlbl.
  - assert (i <> i0) as Hne.
    { intros ->. apply Hfresh. eapply list_elem_of_lookup_2, Hj. }
    destruct (IH _ _ _ _ Hrun Hnd Hj) as (h' & lbl' & Hh' & Hl & Hl').
    simpl in Hl. rewrite list_lookup_insert_ne in Hl by congruence.
    exists h', lbl'. auto.
Qed.

(** The loop goes through as soon as every page has a size and a height
    and a label. *)
Lemma for_each_update_heights_total idxs : forall acc hs,
  mapM height_at idxs = Some hs ->
  (forall i, i ∈ idxs -> (i < length (sized acc))%nat) ->
  is_Some (for_each (update_heights_step v width) acc idxs).
Proof.
  induction idxs as [|i idxs IH]; intros acc hs Hhs Hlen; simpl.
  - eauto.
  - apply mapM_Some_1 in Hhs.
    inversion Hhs as [|? h ? hs' Hh Hhs']; subst.
    unfold height_at in Hh. unfold update_heights_step.
    destruct (page_size v i) as [size|]; simpl in *; [|discriminate].
    rewrite Hh. simpl.
    destruct (lookup_lt_is_Some_2 (sized acc) i) as [lbl Hlbl].
    { apply Hlen. left. }
    rewrite Hlbl. simpl. apply (IH _ hs'); [apply mapM_Some_2; exact Hhs'|].
    simpl. intros i' Hi'. rewrite length_insert. apply Hlen. right. exact Hi'.
Qed.

End UpdateHeights.

(** ** Prefix sums *)

Lemma length_sums_from hs : forall c, length (sums_from c hs) = length hs.
Proof. induction hs as [|h hs IH]; intros c; simpl; [|rewrite IH]; reflexivity. Qed.

Lemma length_prefix_sums hs : length (prefix_sums hs) = S (length hs).
Proof. unfold prefix_sums. simpl. rewrite length_sums_from. reflexivity. Qed.

Lemma sums_from_last hs : forall c,
  (c :: sums_from c hs) !! length hs = Some (c + sum_heights hs).
Proof.
  induction hs as [|h hs IH]; intros c; simpl.
  - f_equal. lia.
  - rewrite IH. f_equal. lia.
Qed.

Lemma sums_from_step hs : forall c i h,
  hs !! i = Some h ->
  exists a, (c :: sums_from c hs) !! i = Some a
            /\ (c :: sums_from c hs) !! S i = Some (a + h).
Proof.
  induction hs as [|h0 hs IH]; intros c i h Hi; [discriminate|].
  destruct i as [|i]; simpl in Hi.
  - injection Hi as <-. exists c. split; reflexivity.
  - destruct (IH (c + h0) i h Hi) as (a & Ha & Ha'). exists a. split; assumption.
Qed.

Lemma sums_from_lower_bound hs : forall c i a,
  Forall (fun h => 0 <= h) hs ->
  (c :: sums_from c hs) !! i = Some a -> c <= a.
Proof.
  induction hs as [|h hs IH]; intros c i a Hhs Hi.
  - destruct i; simpl in Hi; [injection Hi as <-; lia | discriminate].
  - apply Forall_cons in Hhs as [Hh Hhs]. destruct i as [|i]; simpl in Hi.
    + injection Hi as <-. lia.
    + specialize (IH (c + h) i a Hhs Hi). lia.
Qed.

Lemma sums_from_non_decreasing hs : forall c,
  Forall (fun h => 0 <= h) hs -> non_decreasing (c :: sums_from c hs).
Proof.
  induction hs as [|h hs IH]; intros c Hhs i j a b Hij Hi Hj.
  - destruct i, j; simpl in *; try discriminate. simplify_eq. lia.
  - destruct i as [|i].
    + injection Hi as <-. eapply sums_from_lower_bound; eassumption.
    + destruct j as [|j]; [lia|]. apply Forall_cons in Hhs as [_ Hhs].
      apply (IH (c + h) Hhs i j); [lia | exact Hi | exact Hj].
Qed.

(** ** What [update_heights] leaves behind *)

Lemma NoDup_range n : NoDup (range n).
Proof. apply NoDup_seq. Qed.

Lemma update_heights_layout v w v' :
  update_heights v w = Some v' ->
  exists hs,
    layout_heights v w = Some hs
    /\ length hs = total_pages v
    /\ cumulative_heights v' = prefix_sums hs
    /\ total_height v'
       = (if 0 <? sum_heights hs then sum_heights hs else 100)
    /\ total_pages v' = total_pages v
    /\ length (labels v') = length (labels v).
Proof.
  unfold update_heights. intros Hrun.
  destruct (for_each _ _ _) as [acc|] eqn:Hloop; simpl in Hrun; [|discriminate].
  injection Hrun as <-. simpl.
  destruct (for_each_update_heights _ _ _ _ _ Hloop) as (hs & Hhs & Hcum & Htab & Hlen).
  simpl in *. exists hs. repeat split; try assumption.
  - apply length_mapM in Hhs. unfold range in Hhs.
    rewrite length_seq in Hhs. congruence.
  - rewrite Hcum. reflexivity.
Qed.

Lemma update_heights_label v w v' i :
  update_heights v w = Some v' -> (i < total_pages v)%nat ->
  exists h lbl,
    layout_height v w i = Some h /\ labels v !! i = Some lbl
    /\ labels v' !! i = Some (setFixedHeight h lbl).
Proof.
  unfold update_heights. intros Hrun Hi.
  destruct (for_each _ _ _) as [acc|] eqn:Hloop; simpl in Hrun; [|discriminate].
  injection Hrun as <-. simpl.
  apply (for_each_update_heights_label _ _ _ _ _ i i Hloop (NoDup_range _)).
  unfold range. apply lookup_seq. lia.
Qed.

(** The recompute returns whenever every page has a height and a label. *)
Lemma update_heights_total v w hs :
  layout_heights v w = Some hs ->
  (total_pages v <= length (labels v))%nat ->
  is_Some (update_heights v w).
Proof.
  intros Hhs Hlen. unfold update_heights.
  destruct (for_each_update_heights_total v (viewport_width w - 20)
              (range (total_pages v))
              {| cumulative := 0; table := [0]; sized := labels v |} hs Hhs)
    as [acc Hacc].
  - intros i Hi. apply elem_of_seq in Hi. simpl. lia.
  - rewrite Hacc. simpl. eauto.
Qed.

Lemma last_cumulative_sum v w v' hs :
  update_heights v w = Some v' -> layout_heights v w = Some hs ->
  last_cumulative v' = Some (sum_heights hs).
Proof.
  intros Hrun Hhs.
  destruct (update_heights_layout _ _ _ Hrun) as (hs' & Hhs' & Hlen & Htab & _ & Hn & _).
  assert (hs' = hs) as -> by congruence.
  unfold last_cumulative. rewrite Htab, Hn, <- Hlen.
  unfold prefix_sums. rewrite sums_from_last. f_equal.
Qed.

(** ** C2: the layout height of a page *)

(** C2, as the code has it.  After a layout recompute every page [i] has a
    height [h]: it is the step of the cumulative table at [i] and the fixed
    height of the page's label.  [h] is 100 when the natural height is not
    positive; it is the natural height itself when the natural width is not
    positive; otherwise it is [int(orig_height * (width / orig_width))], the
    binary64 product cut toward zero, where [width] is the viewport width
    less 20. *)
Theorem layout_height_formula v w v' i :
  update_heights v w = Some v' -> (i < total_pages v)%nat ->
  exists orig_width orig_height h a lbl,
    page_size v i = Some (orig_width, orig_height)
    /\ cumulative_heights v' !! i = Some a
    /\ cumulative_heights v' !! S i = Some (a + h)
    /\ labels v' !! i = Some lbl /\ fixed_height lbl = Some h
    /\ (orig_height <= 0 -> h = 100)
    /\ (0 < orig_height -> orig_width <= 0 -> h = orig_height)
    /\ (0 < orig_height -> 0 < orig_width ->
        (q ← Float64.int_true_div (viewport_width w - 20) orig_width;
         p ← Float64.int_mul orig_height q;
         Float64.to_int p) = Some h).
Proof.
  intros Hrun Hi.
  destruct (update_heights_layout _ _ _ Hrun) as (hs & Hhs & Hlen & Htab & _).
  destruct (update_heights_label _ _ _ i Hrun Hi) as (h & lbl & Hh & Hlbl & Hlbl').
  unfold layout_height in Hh.
  destruct (page_size v i) as [[orig_width orig_height]|] eqn:Hsize;
    [|discriminate].
  change (page_height (viewport_width w - 20) (orig_width, orig_height) = Some h)
    in Hh.
  assert (hs !! i = Some h) as Hhsi.
  { apply mapM_Some_1 in Hhs.
    destruct (Forall2_lookup_l _ _ _ i i Hhs) as (h' & Hh' & Hh'').
    - unfold range. apply lookup_seq. lia.
    - unfold layout_height in Hh''. rewrite Hsize in Hh''.
      change (page_height (viewport_width w - 20) (orig_width, orig_height)
              = Some h') in Hh''.
      congruence. }
  destruct (sums_from_step hs 0 i h Hhsi) as (a & Ha & Ha').
  exists orig_width, orig_height, h, a, (setFixedHeight h lbl).
  rewrite Htab. unfold prefix_sums.
  split; [reflexivity|]. split; [exact Ha|]. split; [exact Ha'|].
  split; [exact Hlbl'|]. split; [reflexivity|].
  split; [|split].
  - intros Hle. rewrite page_height_fallback in Hh; [congruence | lia |].
    unfold page_height in Hh.
    destruct (scale_factor _ _); [eauto | discriminate].
  - intros Hpos Hle. rewrite page_height_unscaled in Hh by assumption. congruence.
  - intros Hpos Hpos'. rewrite page_height_scaled in Hh by assumption. exact Hh.
Qed.

Lemma layout_height_formula_witness :
  exists v',
    update_heights (viewer_of_pages [(1600, 2400)]) (calm_world 820 600 0)
    = Some v'
    /\ exists orig_width orig_height h a lbl,
         page_size (viewer_of_pages [(1600, 2400)]) 0
         = Some (orig_width, orig_height)
         /\ cumulative_heights v' !! 0%nat = Some a
         /\ cumulative_heights v' !! 1%nat = Some (a + h)
         /\ labels v' !! 0%nat = Some lbl /\ fixed_height lbl = Some h
         /\ (orig_height <= 0 -> h = 100)
         /\ (0 < orig_height -> orig_width <= 0 -> h = orig_height)
         /\ (0 < orig_height -> 0 < orig_width ->
             (q ← Float64.int_true_div
                    (viewport_width (calm_world 820 600 0) - 20) orig_width;
              p ← Float64.int_mul orig_height q;
              Float64.to_int p) = Some h).
Proof.
  eexists. split; [vm_compute; reflexivity|].
  apply (layout_height_formula (viewer_of_pages [(1600, 2400)])
           (calm_world 820 600 0));
    [vm_compute; reflexivity | simpl; lia].
Defined.

(** C2 as stated fails: a 1024 x 1025 page laid out 768 wide is
    768.75 high, which the code cuts to 768 where rounding gives 769. *)
Lemma layout_height_round_counterexample :
  layout_height (viewer_of_pages [(1024, 1025)]) (calm_world 788 600 0) 0
  = Some 768
  /\ spec_scaled_height 768 (1024, 1025) = 769
  /\ layout_height (viewer_of_pages [(1024, 1025)]) (calm_world 788 600 0) 0
     <> Some (spec_scaled_height 768 (1024, 1025)).
Proof.
  split; [vm_compute; reflexivity|]. split; [vm_compute; reflexivity|].
  vm_compute. discriminate.
Qed.

(** The product is taken in binary64: an 800 x 1200 page laid out 402 wide
    is exactly 603 high, but [402 / 800] rounds down and the product falls
    just short of 603, so the page gets 602. *)
Example layout_height_binary64 :
  page_height 402 (800, 1200) = Some 602
  /\ spec_scaled_height 402 (800, 1200) = 603.
Proof. split; vm_compute; reflexivity. Qed.

(** ** C3: the floor of the total content height *)

(** C3, as the code has it.  After a layout recompute the total content
    height is the last entry of the cumulative table when that entry is
    positive, and 100 otherwise. *)
Theorem total_height_floor v w v' :
  update_heights v w = Some v' ->
  exists c, last_cumulative v' = Some c
            /\ total_height v' = (if 0 <? c then c else 100).
Proof.
  intros Hrun.
  destruct (update_heights_layout _ _ _ Hrun) as (hs & Hhs & _ & _ & Htot & _).
  exists (sum_heights hs). split; [|exact Htot].
  eapply last_cumulative_sum; eassumption.
Qed.

Lemma total_height_floor_witness :
  exists v',
    update_heights (viewer_of_pages [(1600, 2400)]) (calm_world 820 600 0)
    = Some v'
    /\ exists c, last_cumulative v' = Some c
                 /\ total_height v' = (if 0 <? c then c else 100).
Proof.
  eexists. split; [vm_compute; reflexivity|].
  apply (total_height_floor (viewer_of_pages [(1600, 2400)])
           (calm_world 820 600 0)).
  vm_compute. reflexivity.
Defined.

(** C3 as stated fails: a folder without archives is opened and the window
    resized; with no page at all the table is [[0]] and the total height is
    100, not [max(0, 1) = 1]. *)
Lemma total_height_floor_counterexample :
  exists v0 v1,
    load_folder empty_folder (calm_world 820 600 0) init_viewer "/comics"
    = Some (v0, [])
    /\ handle Resize v0 (calm_world 640 480 0) = Some (v1, [])
    /\ update_heights v0 (calm_world 640 480 0) = Some v1
    /\ total_pages v1 = 0%nat
    /\ last_cumulative v1 = Some 0
    /\ total_height v1 = 100
    /\ total_height v1 <> spec_total_height 0.
Proof.
  eexists _, _. split; [vm_compute; reflexivity|].
  split; [vm_compute; reflexivity|].
  repeat split; vm_compute; reflexivity || discriminate.
Qed.

(** ** C4: the cumulative-height table *)

Lemma layout_heights_nonneg v w hs :
  0 <= viewport_width w - 20 -> layout_heights v w = Some hs ->
  Forall (fun h => 0 <= h) hs.
Proof.
  intros Hwidth Hhs. apply mapM_Some_1 in Hhs.
  induction Hhs as [|i h idxs hs Hh _ IH]; constructor; [|exact IH].
  unfold layout_height in Hh. destruct (page_size v i) as [size|]; [|discriminate].
  eapply page_height_nonneg; eassumption.
Qed.

(** C4, as the code has it.  After a layout recompute the cumulative table
    has [total_pages + 1] entries and starts at 0; it is non-decreasing when
    the layout width (the viewport width less 20) is not negative; and its
    last entry is the total content height when that entry is positive,
    the total being 100 otherwise. *)
Theorem cumulative_heights_table v w v' :
  update_heights v w = Some v' ->
  length (cumulative_heights v') = S (total_pages v')
  /\ cumulative_heights v' !! 0%nat = Some 0
  /\ (0 <= viewport_width w - 20 -> non_decreasing (cumulative_heights v'))
  /\ (forall c, last_cumulative v' = Some c ->
        (0 < c -> total_height v' = c) /\ (c <= 0 -> total_height v' = 100)).
Proof.
  intros Hrun.
  destruct (update_heights_layout _ _ _ Hrun)
    as (hs & Hhs & Hlen & Htab & Htot & Hn & _).
  rewrite Htab, Hn. split; [|split; [|split]].
  - rewrite length_prefix_sums. congruence.
  - reflexivity.
  - intros Hwidth. apply sums_from_non_decreasing.
    eapply layout_heights_nonneg; eassumption.
  - intros c Hlast.
    rewrite (last_cumulative_sum _ _ _ _ Hrun Hhs) in Hlast.
    injection Hlast as <-. rewrite Htot.
    destruct (Z.ltb_spec 0 (sum_heights hs)); split; intros; lia || reflexivity.
Qed.

Lemma cumulative_heights_table_witness :
  exists v',
    update_heights (viewer_of_pages [(1600, 2400); (800, 600)])
                   (calm_world 820 600 0) = Some v'
    /\ length (cumulative_heights v') = S (total_pages v')
    /\ cumulative_heights v' !! 0%nat = Some 0
    /\ non_decreasing (cumulative_heights v')
    /\ last_cumulative v' = Some 1800
    /\ total_height v' = 1800.
Proof.
  eexists. split; [vm_compute; reflexivity|].
  destruct (cumulative_heights_table
              (viewer_of_pages [(1600, 2400); (800, 600)])
              (calm_world 820 600 0) _ eq_refl)
    as (Hlen & Hzero & Hmono & Hlast).
  split; [exact Hlen|]. split; [exact Hzero|].
  split; [apply Hmono; simpl; lia|].
  split; [reflexivity|].
  apply (Hlast 1800); [reflexivity | lia].
Defined.

(** C4 as stated fails: one 1600 x 1 page laid out 800 wide has height
    [int(0.5) = 0]; the table is [[0; 0]], its last entry is 0, and the total
    content height is 100. *)
Lemma cumulative_heights_table_counterexample :
  exists v',
    update_heights (viewer_of_pages [(1600, 1)]) (calm_world 820 600 0)
    = Some v'
    /\ total_pages v' = 1%nat
    /\ cumulative_heights v' = [0; 0]
    /\ last_cumulative v' = Some 0
    /\ total_height v' = 100
    /\ last_cumulative v' <> Some (total_height v').
Proof.
  eexists. split; [vm_compute; reflexivity|].
  repeat split; vm_compute; discriminate.
Qed.

(** A viewport narrower than 20 makes the layout width negative, and the
    table then decreases. *)
Example cumulative_heights_narrow_viewport :
  cumulative_heights
    <$> update_heights (viewer_of_pages [(10, 10); (10, 20)])
                       (calm_world 10 600 0)
  = Some [0; -10; -30].
Proof. vm_compute. reflexivity. Qed.

(** ** C5: the offset-to-page lookup *)

Lemma next_index_above_found l : forall i k c x,
  l !! k = Some c -> x < c ->
  (forall j c', (j < k)%nat -> l !! j = Some c' -> c' <= x) ->
  next_index_above i l x = Some (i + k)%nat.
Proof.
  induction l as [|c0 l IH]; intros i k c x Hk Hc Hbelow; [discriminate|].
  destruct k as [|k]; simpl in *.
  - injection Hk as ->. destruct (Z.ltb_spec x c); [f_equal; lia | lia].
  - destruct (Z.ltb_spec x c0) as [Hlt|_].
    + pose proof (Hbelow 0%nat c0 ltac:(lia) eq_refl). lia.
    + rewrite (IH (S i) k c x Hk Hc); [f_equal; lia|].
      intros j c' Hj Hj'. apply (Hbelow (S j) c'); [lia | exact Hj'].
Qed.

Lemma next_index_above_bounds l : forall i x a,
  next_index_above i l x = Some a -> (i <= a < i + length l)%nat.
Proof.
  induction l as [|c l IH]; intros i x a; simpl; [discriminate|].
  destruct (x <? c).
  - intros [= <-]. lia.
  - intros Ha. specialize (IH _ _ _ Ha). lia.
Qed.

Lemma next_index_above_mono l : forall i x y,
  x <= y ->
  match next_index_above i l x, next_index_above i l y with
  | Some a, Some b => (a <= b)%nat
  | Some a, None => (a < i + length l)%nat
  | None, Some _ => False
  | None, None => True
  end.
Proof.
  induction l as [|c l IH]; intros i x y Hxy; simpl; [trivial|].
  destruct (Z.ltb_spec x c) as [Hx|Hx], (Z.ltb_spec y c) as [Hy|Hy].
  - lia.
  - destruct (next_index_above (S i) l y) as [b|] eqn:Hb; [|lia].
    apply next_index_above_bounds in Hb. lia.
  - exfalso. lia.
  - specialize (IH (S i) x y Hxy).
    destruct (next_index_above (S i) l x), (next_index_above (S i) l y);
      try lia; trivial.
Qed.

Lemma page_at_offset_mono v x y :
  (length (cumulative_heights v) <= S (total_pages v))%nat ->
  x <= y -> page_at_offset v x <= page_at_offset v y.
Proof.
  intros Hlen Hxy. unfold page_at_offset.
  pose proof (next_index_above_mono (cumulative_heights v) 0 x y Hxy) as Hmono.
  destruct (next_index_above 0 (cumulative_heights v) x),
           (next_index_above 0 (cumulative_heights v) y); lia.
Qed.

(** C5, as the code has it.  After a layout recompute with page heights
    [hs]: offset 0 is on page 0 when the first page has a positive height;
    the last offset, [total_height - 1], is on the last page when no page has
    a negative height and the last page has a positive one; and the lookup
    never goes back when the offset grows. *)
Theorem page_at_offset_properties v w v' hs :
  update_heights v w = Some v' -> layout_heights v w = Some hs ->
  (forall h0, hs !! 0%nat = Some h0 -> 0 < h0 -> page_at_offset v' 0 = 0)
  /\ (forall hl, Forall (fun h => 0 <= h) hs -> last hs = Some hl -> 0 < hl ->
        page_at_offset v' (total_height v' - 1) = Z.of_nat (total_pages v') - 1)
  /\ (forall x y, x <= y -> page_at_offset v' x <= page_at_offset v' y).
Proof.
  intros Hrun Hhs.
  destruct (update_heights_layout _ _ _ Hrun)
    as (hs' & Hhs' & Hlen & Htab & Htot & Hn & _).
  assert (hs' = hs) as -> by congruence.
  split; [|split].
  - intros h0 Hh0 Hpos. unfold page_at_offset. rewrite Htab.
    destruct hs as [|h hs0]; [discriminate|]. injection Hh0 as ->.
    unfold prefix_sums. simpl. destruct (Z.ltb_spec 0 (0 + h0)); lia.
  - intros hl Hnonneg Hlast Hpos. unfold page_at_offset.
    apply last_Some in Hlast as [hs0 ->].
    assert ((hs0 ++ [hl]) !! length hs0 = Some hl) as Hl.
    { rewrite lookup_app_r by lia. rewrite Nat.sub_diag. reflexivity. }
    destruct (sums_from_step _ 0 _ _ Hl) as (a & Ha & Ha').
    pose proof (sums_from_last (hs0 ++ [hl]) 0) as Hsum.
    rewrite length_app, Nat.add_1_r, Ha' in Hsum.
    assert (sum_heights (hs0 ++ [hl]) = a + hl) as Hsum'
      by (injection Hsum; lia).
    assert (0 <= a) as Ha0 by (eapply sums_from_lower_bound; eassumption).
    rewrite Htot, Hsum'. destruct (Z.ltb_spec 0 (a + hl)); [|lia].
    rewrite Htab. unfold prefix_sums.
    rewrite (next_index_above_found _ 0 (S (length hs0)) (a + hl)).
    + rewrite Hn, <- Hlen, length_app. simpl. lia.
    + exact Ha'.
    + lia.
    + intros j c' Hj Hc'.
      pose proof (sums_from_non_decreasing _ 0 Hnonneg j (length hs0) c' a) as Hle.
      specialize (Hle ltac:(lia) Hc' Ha). lia.
  - intros x y Hxy. apply page_at_offset_mono; [|exact Hxy].
    rewrite Htab, length_prefix_sums, Hn. lia.
Qed.

Lemma page_at_offset_properties_witness :
  exists v',
    update_heights (viewer_of_pages [(1600, 2400); (800, 600)])
                   (calm_world 820 600 0) = Some v'
    /\ layout_heights (viewer_of_pages [(1600, 2400); (800, 600)])
                      (calm_world 820 600 0) = Some [1200; 600]
    /\ page_at_offset v' 0 = 0
    /\ page_at_offset v' (total_height v' - 1) = Z.of_nat (total_pages v') - 1
    /\ (forall x y, x <= y -> page_at_offset v' x <= page_at_offset v' y).
Proof.
  eexists. split; [vm_compute; reflexivity|].
  split; [vm_compute; reflexivity|].
  destruct (page_at_offset_properties
              (viewer_of_pages [(1600, 2400); (800, 600)])
              (calm_world 820 600 0) _ [1200; 600] eq_refl eq_refl)
    as (Hfirst & Hlast & Hmono).
  split; [apply (Hfirst 1200); [reflexivity | lia]|].
  split; [|exact Hmono].
  apply (Hlast 600); [repeat constructor; lia | reflexivity | lia].
Defined.

(** C5 as stated fails on pages of height 0: with a 1600 x 1 page before and
    after an 800 x 1200 page, laid out 800 wide, the table is
    [[0; 0; 1200; 1200]]; offset 0 is on page 1, not on page 0, and offset
    [total_height - 1 = 1199] is on page 1, not on the last page 2. *)
Lemma page_at_offset_counterexample :
  exists v',
    update_heights (viewer_of_pages [(1600, 1); (800, 1200); (1600, 1)])
                   (calm_world 820 600 0) = Some v'
    /\ total_pages v' = 3%nat
    /\ total_height v' = 1200
    /\ page_at_offset v' 0 = 1
    /\ page_at_offset v' (total_height v' - 1) = 1
    /\ page_at_offset v' 0 <> 0
    /\ page_at_offset v' (total_height v' - 1) <> Z.of_nat (total_pages v') - 1.
Proof.
  eexists. split; [vm_compute; reflexivity|].
  repeat split; vm_compute; discriminate.
Qed.

(** ** C1: the window sweep *)

Lemma unload_pixmap_not_loaded lbl : pixmap_loaded (unload_pixmap lbl) = false.
Proof. unfold unload_pixmap. destruct (pixmap_loaded lbl) eqn:H; simpl; auto. Qed.

(** [unload_pixmap] releases: a loaded label loses its pixmap and its loaded
    width, a label that is not loaded is returned as it is. *)
Lemma unload_pixmap_released lbl : released lbl (unload_pixmap lbl).
Proof.
  unfold released, unload_pixmap.
  destruct (pixmap_loaded lbl) eqn:Hloaded; simpl.
  - repeat split.
  - rewrite Hloaded. repeat split.
Qed.

(** A coherent label shows the null pixmap once it is unloaded. *)
Lemma unload_pixmap_null lbl :
  coherent lbl ->
  pixmap (unload_pixmap lbl) = None /\ loaded_width (unload_pixmap lbl) = 0
  /\ coherent (unload_pixmap lbl).
Proof.
  unfold coherent, unload_pixmap.
  destruct (pixmap_loaded lbl) eqn:Hloaded; simpl.
  - intros _. repeat split.
  - rewrite Hloaded. intros [Hnull Hwidth]. repeat split; assumption.
Qed.

(** [load_pixmap] prints at most the report of its own failure. *)
Lemma load_pixmap_prints v w lbl : Forall is_image_error (load_pixmap v w lbl).2.
Proof.
  unfold load_pixmap. destruct (loaded_for _ lbl); simpl; [constructor|].
  destruct (try_decode _ _ _ lbl); simpl; repeat constructor.
  exists (global_index lbl). reflexivity.
Qed.

Section Sweep.
Variable v : viewer.
Variable w : world.

Let swept_label (i : nat) (lbl : PageLabel) : PageLabel :=
  if in_window v w i then (load_pixmap v w lbl).1 else unload_pixmap lbl.

Lemma sweep_step_Some acc i lbl :
  acc.1 !! i = Some lbl ->
  exists lines,
    sweep_step v w acc i = Some (<[i := swept_label i lbl]> acc.1, acc.2 ++ lines)
    /\ Forall is_image_error lines.
Proof.
  destruct acc as [lbls out]. simpl. intros Hlbl.
  unfold sweep_step, swept_label. rewrite Hlbl. simpl.
  destruct (in_window v w i).
  - pose proof (load_pixmap_prints v w lbl) as Hprints.
    destruct (load_pixmap v w lbl) as [lbl' lines]. exists lines. auto.
  - exists []. rewrite app_nil_r. split; [reflexivity | constructor].
Qed.

Lemma sweep_step_inv acc i acc' :
  sweep_step v w acc i = Some acc' ->
  exists lbl lines,
    acc.1 !! i = Some lbl
    /\ acc' = (<[i := swept_label i lbl]> acc.1, acc.2 ++ lines)
    /\ Forall is_image_error lines.
Proof.
  intros Hstep.
  destruct (acc.1 !! i) as [lbl|] eqn:Hlbl.
  - destruct (sweep_step_Some acc i lbl Hlbl) as (lines & Hsome & Hlines).
    exists lbl, lines. split; [reflexivity|]. split; [congruence | exact Hlines].
  - destruct acc as [lbls out]. simpl in Hlbl. unfold sweep_step in Hstep.
    rewrite Hlbl in Hstep. discriminate.
Qed.

Lemma for_each_sweep_other idxs : forall acc acc' i,
  for_each (sweep_step v w) acc idxs = Some acc' ->
  i ∉ idxs -> acc'.1 !! i = acc.1 !! i.
Proof.
  induction idxs as [|i0 idxs IH]; intros acc acc' i Hrun Hi; simpl in Hrun.
  - congruence.
  - destruct (sweep_step v w acc i0) as [acc1|] eqn:Hstep; simpl in Hrun;
      [|discriminate].
    apply sweep_step_inv in Hstep as (lbl & lines & _ & -> & _).
    apply not_elem_of_cons in Hi as [Hne Hi].
    rewrite (IH _ _ _ Hrun Hi). simpl. apply list_lookup_insert_ne. congruence.
Qed.

Lemma for_each_sweep_at idxs : forall acc acc' i,
  for_each (sweep_step v w) acc idxs = Some acc' ->
  NoDup idxs -> i ∈ idxs ->
  exists lbl, acc.1 !! i = Some lbl /\ acc'.1 !! i = Some (swept_label i lbl).
Proof.
  induction idxs as [|i0 idxs IH]; intros acc acc' i Hrun Hnd Hi;
    simpl in Hrun.
  - apply elem_of_nil in Hi. contradiction.
  - destruct (sweep_step v w acc i0) as [acc1|] eqn:Hstep; simpl in Hrun;
      [|discriminate].
    apply sweep_step_inv in Hstep as (lbl & lines & Hlbl & -> & _).
    apply NoDup_cons in Hnd as [Hfresh Hnd].
    apply elem_of_cons in Hi as [->|Hi].
    + exists lbl. split; [exact Hlbl|].
      rewrite (for_each_sweep_other _ _ _ _ Hrun Hfresh). simpl.
      apply list_lookup_insert_eq. eapply lookup_lt_Some, Hlbl.
    + assert (i <> i0) as Hne by (intros ->; contradiction).
      destruct (IH _ _ _ Hrun Hnd Hi) as (lbl' & Hl & Hl'). simpl in Hl.
      rewrite list_lookup_insert_ne in Hl by congruence.
      exists lbl'. auto.
Qed.

Lemma for_each_sweep_prints idxs : forall acc acc',
  for_each (sweep_step v w) acc idxs = Some acc' ->
  Forall is_image_error acc.2 -> Forall is_image_error acc'.2.
Proof.
  induction idxs as [|i0 idxs IH]; intros acc acc' Hrun Hout; simpl in Hrun.
  - congruence.
  - destruct (sweep_step v w acc i0) as [acc1|] eqn:Hstep; simpl in Hrun;
      [|discriminate].
    apply sweep_step_inv in Hstep as (lbl & lines & _ & -> & Hlines).
    apply (IH _ _ Hrun). simpl. apply Forall_app. auto.
Qed.

Lemma for_each_sweep_total idxs : forall acc,
  (forall i, i ∈ idxs -> (i < length acc.1)%nat) ->
  is_Some (for_each (sweep_step v w) acc idxs).
Proof.
  induction idxs as [|i idxs IH]; intros acc Hlen; simpl; [eauto|].
  destruct (lookup_lt_is_Some_2 acc.1 i) as [lbl Hlbl]; [apply Hlen; left|].
  destruct (sweep_step_Some acc i lbl Hlbl) as (lines & -> & _).
  simpl. apply IH. simpl. intros i' Hi'. rewrite length_insert. apply Hlen.
  right. exact Hi'.
Qed.

(** The sweep returns as soon as every page has a label. *)
Lemma sweep_total :
  (total_pages v <= length (labels v))%nat -> is_Some (sweep v w).
Proof.
  intros Hlen. apply for_each_sweep_total. simpl. intros i Hi.
  apply elem_of_seq in Hi. lia.
Qed.

Lemma sweep_page lbls' out i :
  sweep v w = Some (lbls', out) -> (i < total_pages v)%nat ->
  exists lbl, labels v !! i = Some lbl /\ lbls' !! i = Some (swept_label i lbl).
Proof.
  intros Hrun Hi.
  apply (for_each_sweep_at _ _ _ _ Hrun (NoDup_range _)).
  apply elem_of_seq. lia.
Qed.

Lemma on_scroll_inv v' out :
  on_scroll v w = Some (v', out) ->
  (total_pages v = 0%nat /\ v' = v /\ out = [])
  \/ (total_pages v <> 0%nat
      /\ exists lbls ind,
           sweep v w = Some (lbls, out)
           /\ indicator_of (with_labels v lbls (indicator v)) w = Some ind
           /\ v' = with_labels v lbls (Some ind)).
Proof.
  unfold on_scroll. intros Hrun.
  destruct (Nat.eqb_spec (total_pages v) 0) as [Hz|Hnz].
  - left. injection Hrun as <- <-. auto.
  - right. split; [exact Hnz|].
    destruct (sweep v w) as [[lbls out']|]; simpl in Hrun; [|discriminate].
    destruct (indicator_of _ w) as [ind|] eqn:Hind; simpl in Hrun;
      [|discriminate].
    injection Hrun as <- <-. exists lbls, ind. auto.
Qed.

Lemma on_scroll_swept v' out i :
  on_scroll v w = Some (v', out) -> (i < total_pages v)%nat ->
  swept_page v w v' i.
Proof.
  intros Hrun Hi.
  apply on_scroll_inv in Hrun as [(Hz & _)|(_ & lbls & ind & Hsweep & _ & ->)];
    [lia|].
  destruct (sweep_page _ _ i Hsweep Hi) as (lbl & Hlbl & Hlbl').
  exists lbl, (swept_label i lbl). simpl.
  split; [exact Hlbl|]. split; [exact Hlbl'|].
  unfold swept_label, in_window. split.
  - intros [Hlo Hhi].
    destruct (Z.leb_spec (load_start v w) (Z.of_nat i)); [|lia].
    destruct (Z.leb_spec (Z.of_nat i) (load_end v w)); [|lia]. reflexivity.
  - intros Hout.
    destruct (Z.leb_spec (load_start v w) (Z.of_nat i));
      destruct (Z.leb_spec (Z.of_nat i) (load_end v w)); simpl;
      try (split; [reflexivity|];
           split; [apply unload_pixmap_not_loaded|];
           split; [apply unload_pixmap_released | apply unload_pixmap_null]).
    lia.
Qed.

(** A scroll prints nothing but reports of pages that failed to load. *)
Lemma on_scroll_prints v' out :
  on_scroll v w = Some (v', out) -> Forall is_image_error out.
Proof.
  intros Hrun.
  apply on_scroll_inv in Hrun as [(_ & _ & ->)|(_ & lbls & ind & Hsweep & _)];
    [constructor|].
  apply (for_each_sweep_prints _ _ _ Hsweep). constructor.
Qed.

End Sweep.

Lemma update_heights_total_pages v w v' :
  update_heights v w = Some v' -> total_pages v' = total_pages v.
Proof.
  intros Hrun. destruct (update_heights_layout _ _ _ Hrun) as (hs & H).
  tauto.
Qed.

(** C1.  When a scroll or a resize has been processed, every global page
    [i] has gone through the sweep: with [load_start = max(0, start_page - 5)]
    and [load_end = min(total_pages - 1, end_page + 5)] read off the table
    the sweep works with, [load_pixmap] was called on the label of [i] if
    [load_start <= i <= load_end] and [unload_pixmap] otherwise.  A page
    outside the window is released: its label is not [pixmap_loaded], and
    the pixmap and the loaded width of a label that was loaded are gone,
    replaced by the null pixmap and 0; so that no page outside the window
    remains materialised: the label, coherent before, shows the null
    pixmap. *)
Theorem window_sweep e v w v' out :
  handle e v w = Some (v', out) ->
  exists v1,
    laid_out e v w = Some v1
    /\ load_start v1 w = Z.max 0 (start_page v1 w - 5)
    /\ load_end v1 w = Z.min (Z.of_nat (total_pages v1) - 1) (end_page v1 w + 5)
    /\ total_pages v1 = total_pages v
    /\ forall i, (i < total_pages v)%nat -> swept_page v1 w v' i.
Proof.
  destruct e; simpl; intros Hrun.
  - exists v. repeat split. intros i Hi. eapply on_scroll_swept; eassumption.
  - unfold on_resize in Hrun.
    destruct (update_heights v w) as [v1|] eqn:Hlayout; simpl in Hrun;
      [|discriminate].
    pose proof (update_heights_total_pages _ _ _ Hlayout) as Hn.
    exists v1. repeat split; [exact Hn|]. intros i Hi.
    eapply on_scroll_swept; [eassumption | lia].
Qed.

Lemma window_sweep_witness :
  exists v' out,
    handle Resize twenty_pages (calm_world 820 600 12000) = Some (v', out)
    /\ exists v1,
         laid_out Resize twenty_pages (calm_world 820 600 12000) = Some v1
         /\ load_start v1 (calm_world 820 600 12000)
            = Z.max 0 (start_page v1 (calm_world 820 600 12000) - 5)
         /\ load_end v1 (calm_world 820 600 12000)
            = Z.min (Z.of_nat (total_pages v1) - 1)
                    (end_page v1 (calm_world 820 600 12000) + 5)
         /\ total_pages v1 = total_pages twenty_pages
         /\ forall i,
              (i < total_pages twenty_pages)%nat ->
              swept_page v1 (calm_world 820 600 12000) v' i.
Proof.
  eexists _, _. split; [vm_compute; reflexivity|].
  apply (window_sweep Resize twenty_pages (calm_world 820 600 12000) _ []).
  vm_compute. reflexivity.
Defined.

(** Twenty pages of height 1200, the viewport on page 10: pages 5 to 15 are
    materialised and no other. *)
Example window_of_page_10 :
  (fun r : viewer * list log_line => map pixmap_loaded (labels r.1))
    <$> handle Resize twenty_pages (calm_world 820 600 12000)
  = Some (replicate 5 false ++ replicate 11 true ++ replicate 4 false).
Proof. vm_compute. reflexivity. Qed.

(** The window moved: when the viewport has gone from page 10 back to the
    top, pages 0 to 5 hold a pixmap, and pages 6 to 15, which held one, show
    the null pixmap again and have lost their loaded width. *)
Example window_moves_to_the_top :
  (fun r : viewer * list log_line =>
     map (fun lbl => (pixmap_loaded lbl, pixmap lbl, loaded_width lbl))
         (labels r.1))
    <$> (handle Resize twenty_pages (calm_world 820 600 12000)
         ≫= fun r => handle Scroll r.1 (calm_world 820 600 0))
  = Some (replicate 6 (true, Some (800, 1200), 800)
          ++ replicate 14 (false, None, 0)).
Proof. vm_compute. reflexivity. Qed.

(** The second scenario of the specification: one page of height 1200,
    offset 600 in a viewport 600 high; first and last visible page are page
    0 and the indicator shows 50 percent. *)
Example half_way_down_one_page :
  exists v' out,
    handle Resize (viewer_of_pages [(1600, 2400)]) (calm_world 820 600 600)
    = Some (v', out)
    /\ total_height v' = 1200
    /\ start_page v' (calm_world 820 600 600) = 0
    /\ end_page v' (calm_world 820 600 600) = 0
    /\ percentage <$> indicator v' = Some 50.
Proof. eexists _, _. split; [vm_compute; reflexivity|]. repeat split. Qed.

(** ** C8: a decode failure during materialisation *)

Lemma load_pixmap_failure v w lbl :
  loaded_for (viewport_width w - 20) lbl = false ->
  try_decode v w (viewport_width w - 20) lbl = None ->
  load_pixmap v w lbl = (lbl, [ErrorLoadingImage (global_index lbl)]).
Proof. intros Hguard Hfail. unfold load_pixmap. rewrite Hguard, Hfail. reflexivity. Qed.

Lemma with_labels_same v :
  with_labels v (labels v) (indicator v) = v.
Proof. destruct v. reflexivity. Qed.

(** C8, as the code has it.  When [load_pixmap] on page [i] attempts a
    decode and the decode raises, the call returns normally, prints the
    error, and the viewer is what it was: the label of page [i] is unchanged
    (so it still holds no pixmap for the current width, and no pixmap at all
    if it held none), and so are the labels of all other pages, the
    cumulative table and the total height. *)
Theorem decode_failure_contained v w i lbl :
  labels v !! i = Some lbl ->
  loaded_for (viewport_width w - 20) lbl = false ->
  try_decode v w (viewport_width w - 20) lbl = None ->
  exists v',
    call_load_pixmap v w i = Some (v', [ErrorLoadingImage (global_index lbl)])
    /\ v' = v
    /\ labels v' !! i = Some lbl
    /\ (forall j, j <> i -> labels v' !! j = labels v !! j)
    /\ cumulative_heights v' = cumulative_heights v
    /\ total_height v' = total_height v
    /\ loaded_for (viewport_width w - 20) lbl = false
    /\ (pixmap_loaded lbl = false ->
        pixmap_loaded (load_pixmap v w lbl).1 = false).
Proof.
  intros Hlbl Hguard Hfail. exists v.
  assert (call_load_pixmap v w i
          = Some (v, [ErrorLoadingImage (global_index lbl)])) as Hcall.
  { unfold call_load_pixmap. rewrite Hlbl. simpl.
    rewrite (load_pixmap_failure _ _ _ Hguard Hfail).
    rewrite list_insert_id by exact Hlbl. rewrite with_labels_same.
    reflexivity. }
  rewrite (load_pixmap_failure _ _ _ Hguard Hfail). repeat split; auto.
Qed.

Lemma decode_failure_contained_witness :
  exists lbl,
    labels (viewer_of_pages [(1600, 2400)]) !! 0%nat = Some lbl
    /\ exists v',
         call_load_pixmap (viewer_of_pages [(1600, 2400)])
                          (failing_world 820 600 0) 0
         = Some (v', [ErrorLoadingImage (global_index lbl)])
         /\ v' = viewer_of_pages [(1600, 2400)]
         /\ labels v' !! 0%nat = Some lbl
         /\ (forall j, j <> 0%nat ->
               labels v' !! j = labels (viewer_of_pages [(1600, 2400)]) !! j)
         /\ cumulative_heights v'
            = cumulative_heights (viewer_of_pages [(1600, 2400)])
         /\ total_height v' = total_height (viewer_of_pages [(1600, 2400)])
         /\ loaded_for (viewport_width (failing_world 820 600 0) - 20) lbl = false
         /\ (pixmap_loaded lbl = false ->
             pixmap_loaded
               (load_pixmap (viewer_of_pages [(1600, 2400)])
                            (failing_world 820 600 0) lbl).1 = false).
Proof.
  eexists. split; [vm_compute; reflexivity|].
  apply (decode_failure_contained (viewer_of_pages [(1600, 2400)])
           (failing_world 820 600 0) 0);
    vm_compute; reflexivity.
Defined.

(** C8 as stated fails when the page was materialised for another width.
    The book is opened in a viewport 800 wide and its page decoded 780 wide;
    the window is then made 600 wide while the decoder fails.  The decode for
    the width 580 raises inside [load_pixmap], which prints the error, and
    the label keeps [pixmap_loaded] and the pixmap 780 wide: the page's entry
    is not absent. *)
Lemma decode_failure_counterexample :
  exists v0 v1 lbl,
    load_single_cbz one_book (calm_world 800 600 0) init_viewer
                    "/comics/book.cbz" = Some (v0, [])
    /\ handle Resize v0 (failing_world 600 600 0)
       = Some (v1, [ErrorLoadingImage 0])
    /\ labels v1 !! 0%nat = Some lbl
    /\ loaded_for 580 lbl = false
    /\ try_decode v1 (failing_world 600 600 0) 580 lbl = None
    /\ pixmap_loaded lbl = true
    /\ pixmap lbl = Some (780, 1170).
Proof.
  eexists _, _, _. split; [vm_compute; reflexivity|].
  split; [vm_compute; reflexivity|]. split; [reflexivity|].
  repeat split; vm_compute; reflexivity.
Qed.

(** ** C6: loading a folder *)

Lemma insert_sorted_perm x l : Permutation (insert_sorted x l) (x :: l).
Proof.
  induction l as [|y l IH]; simpl; [reflexivity|].
  destruct (String.leb x y); [reflexivity|].
  rewrite IH. apply perm_swap.
Qed.

Lemma sorted_perm l : Permutation (sorted l) l.
Proof.
  induction l as [|x l IH]; simpl; [reflexivity|].
  rewrite insert_sorted_perm, IH. reflexivity.
Qed.

Lemma insert_sorted_sorted x l :
  Sorted leb_string l -> Sorted leb_string (insert_sorted x l).
Proof.
  induction l as [|y l IH]; intros Hl; simpl.
  - repeat constructor.
  - destruct (String.leb x y) eqn:Hxy.
    + constructor; [exact Hl|]. constructor. exact Hxy.
    + apply Sorted_inv in Hl as [Hl Hhd]. constructor; [apply IH, Hl|].
      destruct l as [|z l]; simpl.
      * constructor. destruct (String.leb_total x y); congruence.
      * destruct (String.leb x z).
        -- constructor. destruct (String.leb_total x y); congruence.
        -- constructor. apply HdRel_inv in Hhd. exact Hhd.
Qed.

Lemma sorted_sorted l : Sorted leb_string (sorted l).
Proof.
  induction l as [|x l IH]; simpl; [constructor|].
  apply insert_sorted_sorted, IH.
Qed.

Lemma load_folder_step_kept fs s file_path c :
  open_archive fs file_path = Some c ->
  load_folder_step fs s file_path
  = {| scan_cbzs := scan_cbzs s ++ [c];
       scan_map := scan_map s ++ pages_of (length (scan_cbzs s)) c;
       scan_starts := scan_starts s
                      ++ [Z.of_nat (global_page_idx s + length (images c))];
       global_page_idx := (global_page_idx s + length (images c))%nat |}.
Proof.
  unfold open_archive, load_folder_step.
  destruct (zip_files fs !! file_path) as [z|]; simpl; [|discriminate].
  destruct (image_entries z) as [|img imgs] eqn:Himgs; [discriminate|].
  intros [= <-]. unfold pages_of. simpl.
  rewrite length_app, Nat.add_1_r. simpl. rewrite Nat.sub_0_r. reflexivity.
Qed.

Lemma load_folder_step_skipped fs s file_path :
  open_archive fs file_path = None -> load_folder_step fs s file_path = s.
Proof.
  unfold open_archive, load_folder_step.
  destruct (zip_files fs !! file_path) as [z|]; simpl; [|reflexivity].
  destruct (image_entries z); [reflexivity | discriminate].
Qed.

Lemma open_archive_skips fs file_path :
  open_archive fs file_path = None
  <-> zip_files fs !! file_path = None
      \/ exists z, zip_files fs !! file_path = Some z /\ image_entries z = [].
Proof.
  unfold open_archive.
  destruct (zip_files fs !! file_path) as [z|]; simpl.
  - destruct (image_entries z) eqn:Himgs; split; intros H.
    + right. eauto.
    + reflexivity.
    + discriminate.
    + destruct H as [H|(z' & Hz & Hnil)]; [discriminate|].
      injection Hz as <-. congruence.
  - split; auto.
Qed.

Lemma length_pages_of file_idx c : length (pages_of file_idx c) = length (images c).
Proof. unfold pages_of, range. rewrite length_map, length_seq. reflexivity. Qed.

Lemma length_concat_pages l : forall f : nat -> nat,
  length (concat (imap (fun j => pages_of (f j)) l)) = page_count l.
Proof.
  unfold page_count.
  induction l as [|c l IH]; intros f; simpl; [reflexivity|].
  rewrite length_app, length_pages_of. f_equal. apply (IH (f ∘ S)).
Qed.

Lemma load_folder_scan_from fs paths : forall s,
  let s' := foldl (load_folder_step fs) s paths in
  let kept := omap (open_archive fs) paths in
  scan_cbzs s' = scan_cbzs s ++ kept
  /\ scan_map s'
     = scan_map s
       ++ concat (imap (fun j => pages_of (length (scan_cbzs s) + j)) kept)
  /\ global_page_idx s' = (global_page_idx s + page_count kept)%nat.
Proof.
  induction paths as [|p paths IH]; intros s; simpl.
  - rewrite !app_nil_r. repeat split. unfold page_count. simpl. lia.
  - destruct (open_archive fs p) as [c|] eqn:Hc.
    + rewrite (load_folder_step_kept _ _ _ _ Hc).
      destruct (IH {| scan_cbzs := scan_cbzs s ++ [c];
                      scan_map := scan_map s ++ pages_of (length (scan_cbzs s)) c;
                      scan_starts := scan_starts s
                        ++ [Z.of_nat (global_page_idx s + length (images c))];
                      global_page_idx :=
                        (global_page_idx s + length (images c))%nat |})
        as (Hcbzs & Hmap & Hidx).
      simpl in *. rewrite Hcbzs, Hmap, Hidx. repeat split.
      * rewrite <- app_assoc. reflexivity.
      * rewrite <- app_assoc. f_equal. rewrite Nat.add_0_r. f_equal.
        f_equal. apply imap_ext. intros j c' _. simpl.
        rewrite length_app. simpl.
        apply (f_equal (fun k => pages_of k c')). lia.
      * unfold page_count. simpl. symmetry. apply Nat.add_assoc.
    + rewrite (load_folder_step_skipped _ _ _ Hc). apply IH.
Qed.

Lemma update_heights_catalogue v w v' :
  update_heights v w = Some v' ->
  cbzs v' = cbzs v /\ page_to_file_map v' = page_to_file_map v
  /\ total_pages v' = total_pages v /\ folder_path v' = folder_path v.
Proof.
  unfold update_heights. intros Hrun.
  destruct (for_each _ _ _); simpl in Hrun; [|discriminate].
  injection Hrun as <-. auto.
Qed.

Lemma update_heights_starts v w v' :
  update_heights v w = Some v' -> file_page_starts v' = file_page_starts v.
Proof.
  unfold update_heights. intros Hrun.
  destruct (for_each _ _ _); simpl in Hrun; [|discriminate].
  injection Hrun as <-. reflexivity.
Qed.

Lemma on_scroll_catalogue v w v' out :
  on_scroll v w = Some (v', out) ->
  cbzs v' = cbzs v /\ page_to_file_map v' = page_to_file_map v
  /\ total_pages v' = total_pages v /\ folder_path v' = folder_path v
  /\ cumulative_heights v' = cumulative_heights v
  /\ total_height v' = total_height v.
Proof.
  intros Hrun.
  apply on_scroll_inv in Hrun as [(_ & -> & _)|(_ & lbls & ind & _ & _ & ->)];
    auto 6.
Qed.

Lemma show_pages_catalogue v w v' out :
  show_pages v w = Some (v', out) ->
  cbzs v' = cbzs v /\ page_to_file_map v' = page_to_file_map v
  /\ total_pages v' = total_pages v /\ folder_path v' = folder_path v
  /\ Forall is_image_error out.
Proof.
  unfold show_pages. intros Hrun.
  destruct (update_heights _ w) as [v1|] eqn:Hlayout; simpl in Hrun;
    [|discriminate].
  apply update_heights_catalogue in Hlayout as (? & ? & ? & ?).
  pose proof (on_scroll_prints _ _ _ _ Hrun) as Hout.
  apply on_scroll_catalogue in Hrun as (? & ? & ? & ? & _).
  simpl in *. repeat split; congruence || exact Hout.
Qed.

Lemma load_folder_catalogue fs w folder v' out :
  load_folder fs w init_viewer folder = Some (v', out) ->
  cbzs v' = scan_cbzs (load_folder_scan fs init_viewer folder)
  /\ page_to_file_map v' = scan_map (load_folder_scan fs init_viewer folder)
  /\ total_pages v' = global_page_idx (load_folder_scan fs init_viewer folder)
  /\ folder_path v' = Some folder
  /\ Forall is_image_error out.
Proof.
  unfold load_folder. simpl.
  destruct (global_page_idx _ =? 0)%nat.
  - intros [= <- <-]. repeat split. constructor.
  - intros Hrun. apply show_pages_catalogue in Hrun. exact Hrun.
Qed.

(** C6, as the code has it.  The archives of a folder are taken in the
    sorted order of their paths; one that does not open, or that holds no
    recognised image entry, is skipped and the loop goes on, without a line
    being printed for it: all that a folder load prints are the reports of
    pages that failed to load in the first sweep.  The pages of the archives
    that are kept are concatenated in that order, archive [j] giving the
    pairs [(j, 0)], [(j, 1)], ...  In particular, for [A.cbz] with three
    pages, [B.cbz] with no valid image and [C.cbz] with two pages there are 5
    global pages and global page 3 is local page 0 of [C.cbz]. *)
Theorem folder_load_concatenates fs folder :
  let s := load_folder_scan fs init_viewer folder in
  let kept := omap (open_archive fs) (cbz_files fs folder) in
  Sorted leb_string (cbz_files fs folder)
  /\ (forall file_path,
        open_archive fs file_path = None
        <-> zip_files fs !! file_path = None
            \/ exists z, zip_files fs !! file_path = Some z
                         /\ image_entries z = [])
  /\ scan_cbzs s = kept
  /\ scan_map s = concat (imap pages_of kept)
  /\ global_page_idx s = length (scan_map s)
  /\ (forall w v' out, load_folder fs w init_viewer folder = Some (v', out) ->
        cbzs v' = kept
        /\ page_to_file_map v' = concat (imap pages_of kept)
        /\ total_pages v' = page_count kept
        /\ Forall is_image_error out)
  /\ exists v',
       load_folder abc_folder (calm_world 820 600 0) init_viewer "/comics"
       = Some (v', [])
       /\ map file_name (cbzs v') = ["A.cbz"; "C.cbz"]%string
       /\ total_pages v' = 5%nat
       /\ page_to_file_map v' !! 3%nat = Some (1%nat, 0%nat).
Proof.
  intros s kept.
  destruct (load_folder_scan_from fs (cbz_files fs folder)
              {| scan_cbzs := []; scan_map := []; scan_starts := [0];
                 global_page_idx := 0 |}) as (Hcbzs & Hmap & Hidx).
  simpl in Hcbzs, Hmap, Hidx. fold kept in Hcbzs, Hmap, Hidx.
  assert (scan_cbzs s = kept) as Hs1 by exact Hcbzs.
  assert (scan_map s = concat (imap pages_of kept)) as Hs2 by exact Hmap.
  assert (global_page_idx s = page_count kept) as Hs3 by exact Hidx.
  split; [apply sorted_sorted|]. split; [apply open_archive_skips|].
  split; [exact Hs1|]. split; [exact Hs2|]. split; [|split].
  - rewrite Hs3, Hs2. symmetry. apply (length_concat_pages kept (fun j => j)).
  - intros w v' out Hload.
    apply load_folder_catalogue in Hload as (H1 & H2 & H3 & _ & H5).
    fold s in H1, H2, H3. repeat split; congruence || exact H5.
  - eexists. split; [vm_compute; reflexivity|]. repeat split.
Qed.

Lemma folder_load_concatenates_witness :
  exists v',
    load_folder abc_folder (calm_world 820 600 0) init_viewer "/comics"
    = Some (v', [])
    /\ cbzs v' = omap (open_archive abc_folder) (cbz_files abc_folder "/comics")
    /\ page_to_file_map v'
       = concat (imap pages_of
                   (omap (open_archive abc_folder)
                         (cbz_files abc_folder "/comics")))
    /\ total_pages v'
       = page_count (omap (open_archive abc_folder)
                          (cbz_files abc_folder "/comics"))
    /\ Forall is_image_error [].
Proof.
  eexists. split; [vm_compute; reflexivity|].
  apply (proj1 (proj2 (proj2 (proj2 (proj2 (proj2
           (folder_load_concatenates abc_folder "/comics"))))))
           (calm_world 820 600 0)).
  vm_compute. reflexivity.
Defined.

(** C6 as stated fails on "logged": in a folder where [B.cbz] holds no image
    and [D.zip] is not a zip file, both are skipped, the five pages of the
    other two archives are loaded, and nothing at all is printed. *)
Lemma folder_load_counterexample :
  exists v',
    load_folder abcd_folder (calm_world 820 600 0) init_viewer "/comics"
    = Some (v', [])
    /\ cbz_files abcd_folder "/comics"
       = ["/comics/A.cbz"; "/comics/B.cbz"; "/comics/C.cbz"; "/comics/D.zip"]%string
    /\ open_archive abcd_folder "/comics/B.cbz" = None
    /\ open_archive abcd_folder "/comics/D.zip" = None
    /\ map file_name (cbzs v') = ["A.cbz"; "C.cbz"]%string
    /\ total_pages v' = 5%nat.
Proof. eexists. split; [vm_compute; reflexivity|]. repeat split. Qed.

(** ** C9: a dimension probe that fails *)

(** In [load_folder] an entry whose probe fails stays in the page sequence
    with the size [(0, 0)]. *)
Lemma load_folder_probe_fallback fs file_path c :
  open_archive fs file_path = Some c ->
  exists z,
    zip_files fs !! file_path = Some z
    /\ images c = image_entries z
    /\ length (page_sizes c) = length (images c)
    /\ forall k name,
         images c !! k = Some name -> probe z name = None ->
         page_sizes c !! k = Some (0, 0).
Proof.
  unfold open_archive.
  destruct (zip_files fs !! file_path) as [z|]; simpl; [|discriminate].
  destruct (image_entries z) as [|img imgs] eqn:Himgs; [discriminate|].
  intros [= <-]. exists z. simpl. split; [reflexivity|].
  split; [symmetry; exact Himgs|].
  split; [rewrite length_map; reflexivity|].
  intros k name Hk Hprobe.
  change (map (probe_or_fallback z) (img :: imgs) !! k = Some (0, 0)).
  rewrite list_lookup_fmap, Hk. simpl. unfold probe_or_fallback.
  rewrite Hprobe. reflexivity.
Qed.

(** In [load_single_cbz] the same failure is not caught: the exception
    leaves the loader. *)
Lemma load_single_cbz_probe_failure fs w v path z name :
  zip_files fs !! path = Some z ->
  name ∈ image_entries z -> probe z name = None ->
  load_single_cbz fs w v path = None.
Proof.
  intros Hz Hin Hprobe. unfold load_single_cbz. rewrite Hz. simpl.
  destruct (Nat.eqb_spec (length (image_entries z)) 0) as [Hnil|_].
  - apply nil_length_inv in Hnil. rewrite Hnil in Hin.
    apply elem_of_nil in Hin. contradiction.
  - assert (mapM (probe z) (image_entries z) = None) as ->; [|reflexivity].
    apply mapM_None_2, Exists_exists. eauto.
Qed.

(** C9 on the archive [bad.cbz], whose second page cannot be probed:
    loaded through its folder the archive has two pages, the second of size
    [(0, 0)]; loaded as a single file the load is aborted. *)
Theorem probe_failure_single_file_aborts :
  (exists v' out,
      load_folder damaged_book (calm_world 820 600 0) init_viewer "/comics"
      = Some (v', out)
      /\ total_pages v' = 2%nat
      /\ map page_sizes (cbzs v') = [[(800, 1200); (0, 0)]])
  /\ load_single_cbz damaged_book (calm_world 820 600 0) init_viewer
                     "/comics/bad.cbz" = None.
Proof.
  split.
  - eexists _, _. split; [vm_compute; reflexivity|]. repeat split.
  - vm_compute. reflexivity.
Qed.

(** ** C7 and C10: the session state *)

Lemma load_folder_session fs w folder v out :
  load_folder fs w init_viewer folder = Some (v, out) ->
  folder_path v = Some folder.
Proof. intros Hload. apply load_folder_catalogue in Hload. tauto. Qed.

Lemma load_single_cbz_session fs w path v out :
  load_single_cbz fs w init_viewer path = Some (v, out) -> folder_path v = None.
Proof.
  unfold load_single_cbz.
  destruct (zip_files fs !! path) as [z|]; simpl; [|discriminate].
  destruct (length (image_entries z) =? 0)%nat; [intros [= <- _]; reflexivity|].
  destruct (mapM (probe z) (image_entries z)); simpl; [|discriminate].
  intros Hshow. apply show_pages_catalogue in Hshow. simpl in Hshow. tauto.
Qed.

Lemma restore_after_write v w fs folder :
  session_folder v = Some folder ->
  writes fs (state_file folder) = Stored ->
  restore_state v (closeEvent v w fs).1
  = (Some (JInt (scroll_bar_value w)),
     [RestoringScrollPosition (JInt (scroll_bar_value w))]).
Proof.
  intros Hfolder Hwrite. unfold closeEvent, restore_state.
  rewrite Hfolder, Hwrite. simpl. rewrite lookup_insert_eq. simpl.
  rewrite lookup_singleton_eq. reflexivity.
Qed.

(** C7, as the code has it.  For a viewer opened on a folder, closing at the
    offset [scroll_bar_value w] and restoring gives that offset back when
    the state file is written to the end and can be read back.  Otherwise the
    save is lost, in one of three ways.  If the file is written but cannot be
    read, restoring reports an error and gives nothing.  If the file cannot
    be opened for writing, closing reports the error and the files stay as
    they were.  If the write fails after the file was opened, closing reports
    the error and the file holds what the failed write left, so that
    restoring from a file left without a JSON document reports an error and
    gives nothing.  Restoring without a state file gives nothing.  For a
    viewer opened on a single archive, closing writes nothing and restoring
    gives nothing. *)
Theorem session_round_trip v w fs :
  match session_folder v with
  | Some folder =>
      (writes fs (state_file folder) = Stored ->
       (closeEvent v w fs).2 = [SavingScrollPosition (scroll_bar_value w)]
       /\ restore_state v (closeEvent v w fs).1
          = (Some (JInt (scroll_bar_value w)),
             [RestoringScrollPosition (JInt (scroll_bar_value w))]))
      /\ (writes fs (state_file folder) = StoredUnreadable ->
          (closeEvent v w fs).2 = [SavingScrollPosition (scroll_bar_value w)]
          /\ restore_state v (closeEvent v w fs).1
             = (None, [ErrorRestoringState]))
      /\ (writes fs (state_file folder) = Refused ->
          closeEvent v w fs
          = (fs, [SavingScrollPosition (scroll_bar_value w); ErrorSavingState]))
      /\ (forall remains,
            writes fs (state_file folder) = Broken remains ->
            (closeEvent v w fs).2
            = [SavingScrollPosition (scroll_bar_value w); ErrorSavingState]
            /\ files (closeEvent v w fs).1 !! state_file folder = Some remains
            /\ ((forall doc, remains <> Json doc) ->
                restore_state v (closeEvent v w fs).1
                = (None, [ErrorRestoringState])))
      /\ (files fs !! state_file folder = None -> restore_state v fs = (None, []))
  | None => closeEvent v w fs = (fs, []) /\ restore_state v fs = (None, [])
  end.
Proof.
  destruct (session_folder v) as [folder|] eqn:Hfolder.
  - split; [|split; [|split; [|split]]].
    + intros Hwrite. split.
      * unfold closeEvent. rewrite Hfolder, Hwrite. reflexivity.
      * exact (restore_after_write v w fs folder Hfolder Hwrite).
    + intros Hwrite. unfold closeEvent, restore_state.
      rewrite Hfolder, Hwrite. simpl. rewrite lookup_insert_eq. auto.
    + intros Hwrite. unfold closeEvent. rewrite Hfolder, Hwrite. reflexivity.
    + intros remains Hwrite. unfold closeEvent, restore_state.
      rewrite Hfolder, Hwrite. simpl. rewrite lookup_insert_eq.
      split; [reflexivity|]. split; [reflexivity|].
      intros Hremains. destruct remains as [| |doc]; try reflexivity.
      exfalso. exact (Hremains doc eq_refl).
    + intros Hnone. unfold restore_state. rewrite Hfolder, Hnone. reflexivity.
  - unfold closeEvent, restore_state. rewrite Hfolder. auto.
Qed.

Lemma session_round_trip_witness :
  (closeEvent (folder_viewer "/comics") (calm_world 820 600 742) abc_folder).2
  = [SavingScrollPosition 742]
  /\ restore_state (folder_viewer "/comics")
       (closeEvent (folder_viewer "/comics") (calm_world 820 600 742)
                   abc_folder).1
     = (Some (JInt 742), [RestoringScrollPosition (JInt 742)]).
Proof.
  apply (proj1 (session_round_trip (folder_viewer "/comics")
                  (calm_world 820 600 742) abc_folder)).
  reflexivity.
Defined.

(** C7 as stated fails in three ways.  In a folder that cannot be written
    the offset 742 is not stored, and restoring gives nothing.  With a state
    file that can be written and not read the offset is stored, and
    restoring gives nothing.  On a disk that fills up during the write, the
    state file of an earlier session, which held the offset 100, is emptied:
    restoring gives neither 742 nor 100. *)
Lemma session_round_trip_counterexample :
  exists v out,
    load_folder (read_only abc_folder) (calm_world 820 600 0) init_viewer
                "/comics" = Some (v, out)
    /\ closeEvent v (calm_world 820 600 742) (read_only abc_folder)
       = (read_only abc_folder, [SavingScrollPosition 742; ErrorSavingState])
    /\ restore_state v
         (closeEvent v (calm_world 820 600 742) (read_only abc_folder)).1
       = (None, [])
    /\ (restore_state v
          (closeEvent v (calm_world 820 600 742) (read_only abc_folder)).1).1
       <> Some (JInt 742)
    /\ (closeEvent v (calm_world 820 600 742) (write_only abc_folder)).2
       = [SavingScrollPosition 742]
    /\ restore_state v
         (closeEvent v (calm_world 820 600 742) (write_only abc_folder)).1
       = (None, [ErrorRestoringState])
    /\ restore_state v
         (with_file abc_folder "/comics/.cbzviewer_state.json"
            (Json (JObject {[ "scroll_pos"%string := JInt 100 ]})))
       = (Some (JInt 100), [RestoringScrollPosition (JInt 100)])
    /\ (closeEvent v (calm_world 820 600 742)
          (full_disk
             (with_file abc_folder "/comics/.cbzviewer_state.json"
                (Json (JObject {[ "scroll_pos"%string := JInt 100 ]}))))).2
       = [SavingScrollPosition 742; ErrorSavingState]
    /\ restore_state v
         (closeEvent v (calm_world 820 600 742)
            (full_disk
               (with_file abc_folder "/comics/.cbzviewer_state.json"
                  (Json (JObject {[ "scroll_pos"%string := JInt 100 ]}))))).1
       = (None, [ErrorRestoringState]).
Proof.
  eexists _, _. split; [vm_compute; reflexivity|].
  repeat split; vm_compute; reflexivity || discriminate.
Qed.

(** C10, as the code has it.  A state file that holds a JSON object without
    the member ["scroll_pos"] restores the offset 0.  A state file that
    holds a JSON document which is not an object (an array, a string, a
    number, [true], [false], [null]) has no member either, but it has no
    [get]: the [AttributeError] is caught, the error is reported and nothing
    is restored. *)
Theorem restore_without_scroll_pos v fs folder doc :
  session_folder v = Some folder ->
  files fs !! state_file folder = Some (Json doc) ->
  (forall members,
     doc = JObject members -> members !! "scroll_pos"%string = None ->
     restore_state v fs = (Some (JInt 0), [RestoringScrollPosition (JInt 0)]))
  /\ ((forall members, doc <> JObject members) ->
      restore_state v fs = (None, [ErrorRestoringState])).
Proof.
  intros Hfolder Hfile. unfold restore_state. rewrite Hfolder, Hfile. split.
  - intros members -> Hkey. simpl. rewrite Hkey. reflexivity.
  - intros Hdoc. destruct doc as [| | | | |members]; try reflexivity.
    exfalso. exact (Hdoc members eq_refl).
Qed.

Lemma restore_without_scroll_pos_witness :
  restore_state (folder_viewer "/comics")
    (with_file abc_folder "/comics/.cbzviewer_state.json"
       (Json (JObject {[ "page"%string := JInt 7 ]})))
  = (Some (JInt 0), [RestoringScrollPosition (JInt 0)]).
Proof.
  apply (proj1 (restore_without_scroll_pos (folder_viewer "/comics")
                  (with_file abc_folder "/comics/.cbzviewer_state.json"
                     (Json (JObject {[ "page"%string := JInt 7 ]})))
                  "/comics" (JObject {[ "page"%string := JInt 7 ]})
                  eq_refl eq_refl)
           {[ "page"%string := JInt 7 ]} eq_refl).
  vm_compute. reflexivity.
Defined.

(** C10 as stated fails for a state file that parses as JSON and is not an
    object: the array [[742]] has no ["scroll_pos"], and the restore is an
    error that is caught, not a restoration of the offset 0. *)
Lemma restore_without_scroll_pos_counterexample :
  files (with_file abc_folder "/comics/.cbzviewer_state.json"
           (Json (JArray [JInt 742])))
    !! state_file "/comics"
  = Some (Json (JArray [JInt 742]))
  /\ restore_state (folder_viewer "/comics")
       (with_file abc_folder "/comics/.cbzviewer_state.json"
          (Json (JArray [JInt 742])))
     = (None, [ErrorRestoringState])
  /\ (restore_state (folder_viewer "/comics")
        (with_file abc_folder "/comics/.cbzviewer_state.json"
           (Json (JArray [JInt 742])))).1
     <> Some (JInt 0).
Proof. repeat split. discriminate. Qed.


(** ** Events on a ready viewer return

    The properties above speak of the viewer after an event.  For a viewer
    as the loaders leave it, and a viewport and scroll offset of moderate
    magnitude, the event does complete: no index is out of range and no
    float overflows. *)

Lemma page_height_returns width orig_width orig_height :
  small width -> small orig_height ->
  is_Some (page_height width (orig_width, orig_height)).
Proof.
  unfold small. intros Hwidth Hheight.
  destruct (Z.ltb_spec 0 orig_height) as [Hh|Hh].
  - destruct (Z.ltb_spec 0 orig_width) as [Hw|Hw].
    + rewrite page_height_scaled by assumption.
      destruct (Float64Facts.int_true_div_below width orig_width 62)
        as (q & -> & Hq); [assumption | lia | lia |]. simpl.
      unfold Float64.int_mul.
      destruct (Float64Facts.of_int_below orig_height 62)
        as (y & -> & Hy); [assumption | lia |]. simpl.
      pose proof (Float64Facts.SFmul_below y q _ _ Hy Hq ltac:(lia)) as Hp.
      destruct (SFmul Float64.prec Float64.emax y q); simpl in *;
        eauto || contradiction.
    + rewrite page_height_unscaled by assumption. eauto.
  - rewrite page_height_fallback; [eauto | assumption |].
    unfold scale_factor. destruct (Z.ltb_spec 0 orig_width) as [Hw|Hw]; [|eauto].
    destruct (Float64Facts.int_true_div_below width orig_width 62)
      as (q & -> & _); [assumption | lia | lia |]. simpl. eauto.
Qed.

Lemma page_size_layout v w v' i :
  update_heights v w = Some v' -> page_size v' i = page_size v i.
Proof.
  intros Hrun. apply update_heights_catalogue in Hrun as (Hc & Hm & _).
  unfold page_size. rewrite Hc, Hm. reflexivity.
Qed.

Lemma update_heights_returns v w :
  ready v -> small (viewport_width w - 20) ->
  exists v', update_heights v w = Some v' /\ ready v'.
Proof.
  intros (Hlabels & Hstarts & Hsizes) Hwidth.
  assert (is_Some (layout_heights v w)) as [hs Hhs].
  { apply mapM_is_Some_2, Forall_forall. intros i Hi.
    apply elem_of_seq in Hi.
    destruct (Hsizes i) as (ow & oh & Hsize & Hsmall); [lia|].
    unfold layout_height. simpl. rewrite Hsize. simpl.
    apply page_height_returns; assumption. }
  destruct (update_heights_total v w hs Hhs Hlabels) as [v' Hrun].
  exists v'. split; [exact Hrun|].
  destruct (update_heights_layout _ _ _ Hrun) as (_ & _ & _ & _ & _ & Hn & Hlen).
  pose proof (update_heights_catalogue _ _ _ Hrun) as (Hc & _ & Hpages & _).
  split; [lia|]. split.
  - rewrite Hc, Hpages, (update_heights_starts _ _ _ Hrun). exact Hstarts.
  - intros i Hi. rewrite (page_size_layout _ _ _ _ Hrun). apply Hsizes. lia.
Qed.

Lemma to_int_returns k x : Float64.below k x -> is_Some (Float64.to_int x).
Proof. destruct x; simpl; intros H; eauto; contradiction. Qed.

Lemma percentage_returns scroll_pos total :
  small scroll_pos -> total <> 0 ->
  is_Some (q ← Float64.int_true_div scroll_pos total;
           p ← Float64.mul_int q 100;
           Float64.to_int p).
Proof.
  unfold small. intros Hscroll Htotal.
  destruct (Float64Facts.int_true_div_below scroll_pos total 62)
    as (q & -> & Hq); [assumption | lia | assumption |].
  change (is_Some (Float64.mul_int q 100 ≫= Float64.to_int)).
  unfold Float64.mul_int.
  destruct (Float64Facts.of_int_below 100 7) as (y & -> & Hy);
    [simpl; lia | lia |].
  change (is_Some (Float64.to_int (SFmul Float64.prec Float64.emax q y))).
  apply (to_int_returns (62 + 1 + (7 + 1) + 1)).
  apply Float64Facts.SFmul_below; [assumption | assumption | lia].
Qed.

Lemma indicator_of_returns v w :
  (length (cbzs v) < length (file_page_starts v))%nat ->
  small (scroll_bar_value w) ->
  is_Some (indicator_of v w).
Proof.
  intros Hstarts Hscroll. unfold indicator_of.
  assert (is_Some (if 0 <? total_height v
                   then q ← Float64.int_true_div (scroll_bar_value w)
                                                 (total_height v);
                        p ← Float64.mul_int q 100;
                        Float64.to_int p
                   else Some 0)) as [percentage ->].
  { destruct (Z.ltb_spec 0 (total_height v)); [|eauto].
    apply percentage_returns; [assumption | lia]. }
  simpl.
  set (len_cbzs := Z.of_nat (length (cbzs v))).
  set (found := match next_index_above 0 (file_page_starts v) (start_page v w) with
                | Some i => Z.of_nat i - 1
                | None => len_cbzs - 1
                end).
  set (file_idx := Z.max 0 (Z.min found (len_cbzs - 1))).
  assert (0 <= file_idx <= Z.max 0 (len_cbzs - 1)) as Hidx by (unfold file_idx; lia).
  assert (is_Some (file_page_starts v !! Z.to_nat file_idx)) as [file_start ->].
  { apply lookup_lt_is_Some_2. unfold len_cbzs in Hidx. lia. }
  destruct (Z.ltb_spec file_idx len_cbzs) as [Hlt|Hge].
  - destruct (lookup_lt_is_Some_2 (cbzs v) (Z.to_nat file_idx)) as [c ->];
      [unfold len_cbzs in Hlt; lia|].
    simpl. eauto.
  - simpl. eauto.
Qed.

Lemma for_each_sweep_length v w idxs : forall acc acc',
  for_each (sweep_step v w) acc idxs = Some acc' ->
  length acc'.1 = length acc.1.
Proof.
  induction idxs as [|i idxs IH]; intros acc acc' Hrun; simpl in Hrun.
  - congruence.
  - destruct (sweep_step v w acc i) as [acc1|] eqn:Hstep; simpl in Hrun;
      [|discriminate].
    apply sweep_step_inv in Hstep as (lbl & lines & _ & -> & _).
    rewrite (IH _ _ Hrun). simpl. apply length_insert.
Qed.

Lemma sweep_length v w lbls out :
  sweep v w = Some (lbls, out) -> length lbls = length (labels v).
Proof. intros Hrun. apply (for_each_sweep_length _ _ _ _ _ Hrun). Qed.

Lemma on_scroll_returns v w :
  ready v -> small (scroll_bar_value w) ->
  exists v' out, on_scroll v w = Some (v', out) /\ ready v'.
Proof.
  intros Hready Hscroll. pose proof Hready as (Hlabels & Hstarts & Hsizes).
  unfold on_scroll. destruct (total_pages v =? 0)%nat eqn:Hzero; [eauto|].
  apply Nat.eqb_neq in Hzero.
  destruct (sweep_total v w Hlabels) as [[lbls out] Hsweep].
  rewrite Hsweep. simpl.
  destruct (indicator_of_returns (with_labels v lbls (indicator v)) w)
    as [ind ->]; [apply Hstarts; lia | exact Hscroll |].
  simpl. exists (with_labels v lbls (Some ind)), out. split; [reflexivity|].
  split; [|split; [exact Hstarts | exact Hsizes]]. simpl.
  rewrite (sweep_length v w _ _ Hsweep). exact Hlabels.
Qed.

(** Every scroll and every resize of a ready viewer completes, and leaves a
    ready viewer. *)
Lemma handle_returns e v w :
  ready v -> moderate w ->
  exists v' out, handle e v w = Some (v', out) /\ ready v'.
Proof.
  intros Hready [Hwidth Hscroll]. destruct e; simpl.
  - apply on_scroll_returns; assumption.
  - unfold on_resize.
    destruct (update_heights_returns v w Hready Hwidth) as (v1 & -> & Hready1).
    simpl. apply on_scroll_returns; assumption.
Qed.

(** ** The loaders leave a ready viewer *)

Lemma small_0 : small 0.
Proof. unfold small. simpl. lia. Qed.

Lemma probe_or_fallback_small fs file_path z img_path :
  tame fs -> zip_files fs !! file_path = Some z ->
  small (probe_or_fallback z img_path).2.
Proof.
  intros Htame Hz. unfold probe_or_fallback.
  destruct (probe z img_path) as [[ow oh]|] eqn:Hprobe; simpl.
  - exact (Htame _ _ _ _ _ Hz Hprobe).
  - exact small_0.
Qed.

Lemma pages_of_lookup file_idx c i f l :
  pages_of file_idx c !! i = Some (f, l) ->
  f = file_idx /\ (l < length (images c))%nat.
Proof.
  unfold pages_of, range. rewrite list_lookup_fmap.
  destruct (seq 0 (length (images c)) !! i) as [l'|] eqn:Hl; simpl;
    [|discriminate].
  intros [= <- <-]. apply lookup_seq in Hl. split; [reflexivity | lia].
Qed.

Lemma load_folder_step_scanned fs s file_path :
  tame fs -> scanned s -> scanned (load_folder_step fs s file_path).
Proof.
  intros Htame (Hstarts & Hmap & Hsizes).
  destruct (open_archive fs file_path) as [c|] eqn:Hc.
  - rewrite (load_folder_step_kept _ _ _ _ Hc).
    unfold scanned. simpl. split; [|split].
    + rewrite !length_app. simpl. lia.
    + rewrite length_app. unfold pages_of, range.
      rewrite length_map, length_seq. lia.
    + intros i f l Hi. apply lookup_app_Some in Hi as [Hi|[_ Hi]].
      * destruct (Hsizes _ _ _ Hi) as (c0 & ow & oh & Hc0 & Hsize & Hsmall).
        exists c0, ow, oh. split; [|split; assumption].
        apply lookup_app_l_Some. exact Hc0.
      * apply pages_of_lookup in Hi as [-> Hl].
        unfold open_archive in Hc.
        destruct (zip_files fs !! file_path) as [z|] eqn:Hz; simpl in Hc;
          [|discriminate].
        destruct (image_entries z) as [|img imgs] eqn:Himgs; [discriminate|].
        injection Hc as <-. simpl in Hl.
        destruct (lookup_lt_is_Some_2 (img :: imgs) l Hl) as [img_path Himg].
        exists {| images := img :: imgs;
                  page_sizes := map (probe_or_fallback z) (img :: imgs);
                  file_name := basename file_path |},
               (probe_or_fallback z img_path).1,
               (probe_or_fallback z img_path).2.
        split; [|split].
        -- rewrite lookup_app_r by lia. rewrite Nat.sub_diag. reflexivity.
        -- cbn [page_sizes].
           change (map (probe_or_fallback z) (img :: imgs))
             with (probe_or_fallback z <$> (img :: imgs)).
           rewrite list_lookup_fmap, Himg. simpl.
           destruct (probe_or_fallback z img_path). reflexivity.
        -- exact (probe_or_fallback_small _ _ _ _ Htame Hz).
  - rewrite (load_folder_step_skipped _ _ _ Hc). repeat split; assumption.
Qed.

Lemma load_folder_scan_scanned fs folder :
  tame fs -> scanned (load_folder_scan fs init_viewer folder).
Proof.
  intros Htame. unfold load_folder_scan.
  assert (scanned {| scan_cbzs := cbzs init_viewer; scan_map := [];
                     scan_starts := [0]; global_page_idx := 0 |}) as Hinit.
  { repeat split. intros i f l Hi. simpl in Hi. discriminate. }
  revert Hinit. generalize {| scan_cbzs := cbzs init_viewer; scan_map := [];
                              scan_starts := [0]; global_page_idx := 0 |}.
  induction (cbz_files fs folder) as [|p paths IH]; intros s Hs; simpl.
  - exact Hs.
  - apply IH, load_folder_step_scanned; assumption.
Qed.

Lemma show_pages_returns v w :
  ((0 < total_pages v)%nat ->
   (length (cbzs v) < length (file_page_starts v))%nat) ->
  (forall i, (i < total_pages v)%nat ->
     exists orig_width orig_height,
       page_size v i = Some (orig_width, orig_height) /\ small orig_height) ->
  moderate w ->
  exists v' out, show_pages v w = Some (v', out) /\ ready v'.
Proof.
  intros Hstarts Hsizes [Hwidth Hscroll]. unfold show_pages.
  match goal with
  | |- context [update_heights ?v0 w] =>
      destruct (update_heights_returns v0 w) as (v1 & -> & Hready1)
  end.
  - split; [|split; [exact Hstarts | exact Hsizes]]. simpl.
    unfold range. rewrite length_map, length_seq. lia.
  - exact Hwidth.
  - simpl. apply on_scroll_returns; assumption.
Qed.

(** A folder load completes, whatever the folder holds, and the viewer it
    leaves is ready for the events that follow. *)
Lemma load_folder_returns fs w folder :
  tame fs -> moderate w ->
  exists v' out, load_folder fs w init_viewer folder = Some (v', out)
                 /\ ready v'.
Proof.
  intros Htame Hw. unfold load_folder.
  destruct (load_folder_scan_scanned fs folder Htame)
    as (Hstarts & Hmap & Hsizes).
  set (s := load_folder_scan fs init_viewer folder) in *.
  assert (forall i, (i < global_page_idx s)%nat ->
            exists orig_width orig_height,
              ('(file_idx, local_idx) ← scan_map s !! i;
               c ← scan_cbzs s !! file_idx;
               page_sizes c !! local_idx) = Some (orig_width, orig_height)
              /\ small orig_height) as Hpages.
  { intros i Hi.
    destruct (lookup_lt_is_Some_2 (scan_map s) i) as [[f l] Hfl]; [lia|].
    destruct (Hsizes _ _ _ Hfl) as (c & ow & oh & Hc & Hsize & Hsmall).
    exists ow, oh. rewrite Hfl. simpl. rewrite Hc. simpl. auto. }
  cbn [total_pages].
  destruct (global_page_idx s =? 0)%nat eqn:Hzero.
  - eexists _, _. split; [reflexivity|].
    split; [|split]; cbn [total_pages labels cbzs file_page_starts].
    + apply Nat.eqb_eq in Hzero. rewrite Hzero. simpl. lia.
    + lia.
    + intros i Hi. exact (Hpages i Hi).
  - apply show_pages_returns; [simpl; lia | exact Hpages | exact Hw].
Qed.

(** A single-file load completes when the archive opens and every image in
    it can be probed. *)
Lemma load_single_cbz_returns fs w path z :
  zip_files fs !! path = Some z ->
  (forall img_path, img_path ∈ image_entries z -> is_Some (probe z img_path)) ->
  tame fs -> moderate w ->
  exists v' out, load_single_cbz fs w init_viewer path = Some (v', out)
                 /\ ready v'.
Proof.
  intros Hz Hprobes Htame Hw. unfold load_single_cbz. rewrite Hz. simpl.
  destruct (length (image_entries z) =? 0)%nat eqn:Hzero.
  - eexists _, _. split; [reflexivity|].
    split; [|split]; simpl; [lia | lia | intros i Hi; lia].
  - assert (is_Some (mapM (probe z) (image_entries z))) as [sizes Hsizes].
    { apply mapM_is_Some_2, Forall_forall. exact Hprobes. }
    rewrite Hsizes. simpl.
    apply show_pages_returns; [simpl; lia | | exact Hw].
    cbn [total_pages]. intros i Hi. unfold page_size.
    cbn [page_to_file_map cbzs]. unfold range.
    rewrite list_lookup_fmap, lookup_seq_lt by exact Hi. simpl.
    pose proof (mapM_Some_1 _ _ _ Hsizes) as Hall.
    pose proof (Forall2_length _ _ _ Hall) as Hlen.
    destruct (lookup_lt_is_Some_2 sizes i) as [[ow oh] Hsize]; [lia|].
    exists ow, oh. split; [exact Hsize|].
    destruct (lookup_lt_is_Some_2 (image_entries z) i) as [img Himg]; [lia|].
    pose proof (Forall2_lookup_lr _ _ _ _ _ _ Hall Himg Hsize) as Hprobe.
    exact (Htame _ _ _ _ _ Hz Hprobe).
Qed.

(** * Further properties of the code *)

(** ** Handlers and loaders that do not raise *)


Lemma ready_viewer_of_pages_2 :
  ready (viewer_of_pages [(1600, 2400); (800, 1200)]).
Proof.
  split; [simpl; lia|]. split; [simpl; lia|].
  intros i Hi. simpl in Hi.
  destruct i as [|[|i]]; [| |lia].
  - exists 1600, 2400. split; [reflexivity | vm_compute; reflexivity].
  - exists 800, 1200. split; [reflexivity | vm_compute; reflexivity].
Qed.

Lemma moderate_calm_world viewport_w viewport_h scroll :
  small (viewport_w - 20) -> small scroll ->
  moderate (calm_world viewport_w viewport_h scroll).
Proof. intros Hw Hs. split; assumption. Qed.



Lemma tame_abc_folder : tame abc_folder.
Proof.
  intros file_path z img_path ow oh Hz Hprobe. unfold abc_folder in Hz.
  simpl in Hz.
  apply lookup_insert_Some in Hz as [[_ <-]|[_ Hz]];
    [injection Hprobe as <- <-; vm_compute; reflexivity|].
  apply lookup_insert_Some in Hz as [[_ <-]|[_ Hz]]; [discriminate|].
  apply lookup_singleton_Some in Hz as [_ <-].
  injection Hprobe as <- <-. vm_compute. reflexivity.
Qed.



Lemma tame_one_book : tame one_book.
Proof.
  intros file_path z img_path ow oh Hz Hprobe. unfold one_book in Hz.
  simpl in Hz. apply lookup_singleton_Some in Hz as [_ <-].
  injection Hprobe as <- <-. vm_compute. reflexivity.
Qed.


(** ** The catalogue the loaders build *)

Lemma on_scroll_starts v w v' out :
  on_scroll v w = Some (v', out) -> file_page_starts v' = file_page_starts v.
Proof.
  intros Hrun.
  apply on_scroll_inv in Hrun as [(_ & -> & _)|(_ & lbls & ind & _ & _ & ->)];
    reflexivity.
Qed.

Lemma show_pages_starts v w v' out :
  show_pages v w = Some (v', out) -> file_page_starts v' = file_page_starts v.
Proof.
  unfold show_pages. intros Hrun.
  destruct (update_heights _ w) as [v1|] eqn:Hlayout; simpl in Hrun;
    [|discriminate].
  rewrite (on_scroll_starts _ _ _ _ Hrun), (update_heights_starts _ _ _ Hlayout).
  reflexivity.
Qed.

Lemma sums_from_app hs1 : forall c hs2,
  sums_from c (hs1 ++ hs2)
  = sums_from c hs1 ++ sums_from (c + sum_heights hs1) hs2.
Proof.
  induction hs1 as [|h hs1 IH]; intros c hs2; simpl.
  - f_equal. lia.
  - rewrite IH. do 3 f_equal. lia.
Qed.

Lemma load_folder_scan_starts fs paths : forall s,
  scan_starts (foldl (load_folder_step fs) s paths)
  = scan_starts s
    ++ sums_from (Z.of_nat (global_page_idx s))
                 (archive_lengths (omap (open_archive fs) paths)).
Proof.
  induction paths as [|p paths IH]; intros s; simpl.
  - rewrite app_nil_r. reflexivity.
  - destruct (open_archive fs p) as [c|] eqn:Hc.
    + rewrite (load_folder_step_kept _ _ _ _ Hc), IH. simpl.
      rewrite <- app_assoc. simpl. do 3 f_equal; lia.
    + rewrite (load_folder_step_skipped _ _ _ Hc). apply IH.
Qed.

Lemma open_archive_shape fs file_path c :
  open_archive fs file_path = Some c ->
  images c <> [] /\ length (page_sizes c) = length (images c).
Proof.
  unfold open_archive.
  destruct (zip_files fs !! file_path) as [z|]; simpl; [|discriminate].
  destruct (image_entries z) as [|img imgs] eqn:Himgs; [discriminate|].
  intros [= <-]. simpl. split; [discriminate|].
  rewrite length_map. reflexivity.
Qed.

Lemma kept_archives_shape fs paths :
  Forall (fun c => images c <> []
                   /\ length (page_sizes c) = length (images c))
         (omap (open_archive fs) paths).
Proof.
  induction paths as [|p paths IH]; simpl; [constructor|].
  destruct (open_archive fs p) as [c|] eqn:Hc; [|exact IH].
  constructor; [exact (open_archive_shape _ _ _ Hc) | exact IH].
Qed.

Lemma load_folder_catalogued fs w folder v' out :
  load_folder fs w init_viewer folder = Some (v', out) -> catalogued v'.
Proof.
  intros Hrun.
  destruct (load_folder_catalogue _ _ _ _ _ Hrun) as (Hcbzs & Hmap & Htotal & _).
  assert (file_page_starts v'
          = scan_starts (load_folder_scan fs init_viewer folder)) as Hstarts.
  { revert Hrun. unfold load_folder. cbn [total_pages].
    destruct (global_page_idx _ =? 0)%nat.
    - intros [= <- _]. reflexivity.
    - intros Hrun. rewrite (show_pages_starts _ _ _ _ Hrun). reflexivity. }
  unfold load_folder_scan in *.
  set (s0 := {| scan_cbzs := cbzs init_viewer; scan_map := [];
                scan_starts := [0]; global_page_idx := 0 |}) in *.
  destruct (load_folder_scan_from fs (cbz_files fs folder) s0) as (Hc & Hm & Hi).
  cbv zeta in Hc, Hm, Hi.
  rewrite load_folder_scan_starts in Hstarts.
  unfold catalogued. rewrite Hcbzs, Hmap, Htotal, Hstarts, Hc, Hm, Hi.
  subst s0. simpl. repeat split. apply kept_archives_shape.
Qed.

Lemma sum_archive_lengths cs :
  sum_heights (archive_lengths cs) = Z.of_nat (page_count cs).
Proof.
  unfold page_count. induction cs as [|c cs IH]; simpl; [reflexivity|].
  rewrite IH. lia.
Qed.



Lemma show_pages_single_catalogue w path z sizes v' out :
  mapM (probe z) (image_entries z) = Some sizes ->
  image_entries z <> [] ->
  show_pages
    {| cbzs := [{| images := image_entries z; page_sizes := sizes;
                   file_name := basename path |}];
       page_to_file_map :=
         map (fun i => (0%nat, i)) (range (length (image_entries z)));
       file_page_starts := [0; Z.of_nat (length (image_entries z))];
       labels := labels init_viewer;
       cumulative_heights := cumulative_heights init_viewer;
       total_pages := length (image_entries z);
       total_height := total_height init_viewer;
       folder_path := folder_path init_viewer;
       container_height := container_height init_viewer;
       indicator := indicator init_viewer |} w = Some (v', out) ->
  catalogued v'.
Proof.
  intros Hsizes Himages Hrun.
  pose proof (show_pages_starts _ _ _ _ Hrun) as Hstarts.
  destruct (show_pages_catalogue _ _ _ _ Hrun) as (Hcbzs & Hmap & Htotal & _).
  simpl in Hstarts, Hcbzs, Hmap, Htotal.
  unfold catalogued. rewrite Hcbzs, Hmap, Htotal, Hstarts.
  unfold page_count, pages_of. simpl. rewrite app_nil_r, Nat.add_0_r.
  repeat split. constructor; [|constructor]. simpl.
  split; [exact Himages|].
  apply mapM_Some_1, Forall2_length in Hsizes. congruence.
Qed.

Lemma load_single_cbz_catalogued fs w path v' out :
  load_single_cbz fs w init_viewer path = Some (v', out) ->
  total_pages v' <> 0%nat ->
  catalogued v' /\ length (cbzs v') = 1%nat.
Proof.
  unfold load_single_cbz. intros Hrun Hpages.
  destruct (zip_files fs !! path) as [z|]; simpl in Hrun; [|discriminate].
  destruct (length (image_entries z) =? 0)%nat eqn:Hzero.
  - injection Hrun as <- <-. simpl in Hpages. contradiction.
  - destruct (mapM (probe z) (image_entries z)) as [sizes|] eqn:Hsizes;
      simpl in Hrun; [|discriminate].
    assert (image_entries z <> []) as Himages.
    { intros Hnil. rewrite Hnil in Hzero. discriminate. }
    split; [exact (show_pages_single_catalogue _ _ _ _ _ _ Hsizes Himages Hrun)|].
    destruct (show_pages_catalogue _ _ _ _ Hrun) as (-> & _). reflexivity.
Qed.

Lemma pages_of_lookup_lt file_idx c i :
  (i < length (images c))%nat -> pages_of file_idx c !! i = Some (file_idx, i).
Proof.
  intros Hi. unfold pages_of, range.
  rewrite list_lookup_fmap, lookup_seq_lt by exact Hi. reflexivity.
Qed.

Lemma concat_pages_lookup cs : forall (g : nat -> nat) base i,
  (i < page_count cs)%nat ->
  exists f l c start,
    concat (imap (fun j => pages_of (g j)) cs) !! i = Some (g f, l)
    /\ cs !! f = Some c
    /\ (l < length (images c))%nat
    /\ (base :: sums_from base (archive_lengths cs)) !! f = Some start
    /\ (base :: sums_from base (archive_lengths cs)) !! S f
       = Some (start + Z.of_nat (length (images c)))
    /\ base + Z.of_nat i = start + Z.of_nat l.
Proof.
  unfold page_count.
  induction cs as [|c0 cs IH]; intros g base i Hi; simpl in Hi; [lia|].
  destruct (Nat.lt_ge_cases i (length (images c0))) as [Hlt|Hge].
  - exists 0%nat, i, c0, base. simpl.
    rewrite lookup_app_l by (rewrite length_pages_of; exact Hlt).
    rewrite (pages_of_lookup_lt _ _ _ Hlt). repeat split; try reflexivity.
    exact Hlt.
  - destruct (IH (g ∘ S) (base + Z.of_nat (length (images c0)))
                (i - length (images c0))%nat ltac:(lia))
      as (f & l & c & start & Hmap & Hc & Hl & Hstart & Hnext & Hsum).
    exists (S f), l, c, start. simpl.
    rewrite lookup_app_r by (rewrite length_pages_of; exact Hge).
    rewrite length_pages_of. repeat split; try assumption. lia.
Qed.


Lemma catalogued_viewer_of_pages_2 :
  catalogued (viewer_of_pages [(1600, 2400); (800, 1200)]).
Proof.
  unfold catalogued. simpl. repeat split.
  constructor; [|constructor]. simpl. split; [discriminate | reflexivity].
Qed.


(** ** The page indicator *)

Lemma page_at_offset_bounds v x :
  (length (cumulative_heights v) <= S (total_pages v))%nat ->
  total_pages v <> 0%nat ->
  0 <= page_at_offset v x <= Z.of_nat (total_pages v) - 1.
Proof.
  intros Hlen Hpages. unfold page_at_offset.
  destruct (next_index_above 0 (cumulative_heights v) x) as [a|] eqn:Ha; [|lia].
  apply next_index_above_bounds in Ha. lia.
Qed.

Lemma indicator_of_fields v w ind f c start :
  indicator_of v w = Some ind ->
  next_index_above 0 (file_page_starts v) (start_page v w) = Some (S f) ->
  cbzs v !! f = Some c ->
  file_page_starts v !! f = Some start ->
  current_file ind = file_name c
  /\ local_page ind = Z.max 1 (start_page v w - start + 1)
  /\ local_total ind = length (images c)
  /\ current_page ind = Z.max 1 (start_page v w + 1)
  /\ of_total_pages ind = total_pages v.
Proof.
  unfold indicator_of. cbv zeta. intros Hind Hnext Hc Hstart.
  destruct (if 0 <? total_height v then _ else _) as [pct|]; simpl in Hind;
    [|discriminate].
  rewrite Hnext in Hind.
  pose proof (lookup_lt_Some _ _ _ Hc) as Hf.
  replace (Z.max 0 (Z.min (Z.of_nat (S f) - 1)
                          (Z.of_nat (length (cbzs v)) - 1)))
    with (Z.of_nat f) in Hind by lia.
  rewrite Nat2Z.id, Hc, Hstart in Hind.
  destruct (Z.ltb_spec (Z.of_nat f) (Z.of_nat (length (cbzs v)))); [|lia].
  simpl in Hind. injection Hind as <-. simpl. repeat split.
Qed.

Lemma archive_lengths_nonneg cs : Forall (fun h => 0 <= h) (archive_lengths cs).
Proof.
  unfold archive_lengths. apply Forall_forall. intros h Hh.
  apply list_elem_of_fmap in Hh as (c & -> & _). lia.
Qed.



(** ** Label heights and the cumulative table *)

Lemma load_pixmap_cases v w lbl :
  (load_pixmap v w lbl).1 = lbl
  \/ exists height,
       try_decode v w (viewport_width w - 20) lbl = Some height
       /\ (load_pixmap v w lbl).1
          = {| global_index := global_index lbl; pixmap_loaded := true;
               loaded_width := viewport_width w - 20;
               pixmap := Some (viewport_width w - 20, height);
               fixed_height := Some height |}
       /\ (load_pixmap v w lbl).2 = [].
Proof.
  unfold load_pixmap. destruct (loaded_for _ lbl); [left; reflexivity|].
  destruct (try_decode _ _ _ lbl) as [height|]; [|left; reflexivity].
  right. exists height. auto.
Qed.

Lemma try_decode_height v w width lbl height :
  try_decode v w width lbl = Some height ->
  page_size v (global_index lbl) ≫= page_height width = Some height.
Proof.
  unfold try_decode, page_size.
  destruct (page_to_file_map v !! global_index lbl) as [[f l]|]; simpl;
    [|discriminate].
  destruct (cbzs v !! f) as [c|]; simpl; [|discriminate].
  destruct (images c !! l); simpl; [|discriminate].
  destruct (page_sizes c !! l) as [size|]; simpl; [|discriminate].
  destruct (page_height width size) as [h|]; simpl; [|discriminate].
  destruct (decodes w f l width h); [|discriminate]. intros [= <-]. reflexivity.
Qed.

Lemma load_pixmap_global_index v w lbl :
  global_index (load_pixmap v w lbl).1 = global_index lbl.
Proof.
  destruct (load_pixmap_cases v w lbl) as [->|(h & _ & -> & _)]; reflexivity.
Qed.

Lemma unload_pixmap_global_index lbl :
  global_index (unload_pixmap lbl) = global_index lbl.
Proof. unfold unload_pixmap. destruct (pixmap_loaded lbl); reflexivity. Qed.

Lemma unload_pixmap_fixed_height lbl :
  fixed_height (unload_pixmap lbl) = fixed_height lbl.
Proof. unfold unload_pixmap. destruct (pixmap_loaded lbl); reflexivity. Qed.

Lemma fmap_insert_same {A B : Type} (f : A -> B) (l : list A) i x y :
  l !! i = Some x -> f y = f x -> f <$> <[i := y]> l = f <$> l.
Proof.
  intros Hx Hf. rewrite list_fmap_insert, Hf. apply list_insert_id.
  rewrite list_lookup_fmap, Hx. reflexivity.
Qed.

Lemma for_each_sweep_indices v w idxs : forall acc acc',
  for_each (sweep_step v w) acc idxs = Some acc' ->
  global_index <$> acc'.1 = global_index <$> acc.1.
Proof.
  induction idxs as [|i idxs IH]; intros acc acc' Hrun; simpl in Hrun.
  - congruence.
  - destruct (sweep_step v w acc i) as [acc1|] eqn:Hstep; simpl in Hrun;
      [|discriminate].
    apply sweep_step_inv in Hstep as (lbl & lines & Hlbl & -> & _).
    rewrite (IH _ _ Hrun). simpl. apply (fmap_insert_same _ _ _ lbl); [exact Hlbl|].
    destruct (in_window v w i);
      [apply load_pixmap_global_index | apply unload_pixmap_global_index].
Qed.

Lemma for_each_update_heights_indices v width idxs : forall acc acc',
  for_each (update_heights_step v width) acc idxs = Some acc' ->
  global_index <$> sized acc' = global_index <$> sized acc.
Proof.
  induction idxs as [|i idxs IH]; intros acc acc' Hrun; simpl in Hrun.
  - congruence.
  - destruct (update_heights_step v width acc i) as [acc1|] eqn:Hstep;
      simpl in Hrun; [|discriminate].
    rewrite (IH _ _ Hrun). unfold update_heights_step in Hstep.
    destruct (page_size v i) as [size|]; simpl in Hstep; [|discriminate].
    destruct (page_height width size) as [h|]; simpl in Hstep; [|discriminate].
    destruct (sized acc !! i) as [lbl|] eqn:Hlbl; simpl in Hstep; [|discriminate].
    injection Hstep as <-. simpl.
    apply (fmap_insert_same _ _ _ lbl); [exact Hlbl | reflexivity].
Qed.

Lemma numbered_indices (lbls lbls' : list PageLabel) :
  global_index <$> lbls' = global_index <$> lbls ->
  (forall i lbl, lbls !! i = Some lbl -> global_index lbl = i) ->
  forall i lbl, lbls' !! i = Some lbl -> global_index lbl = i.
Proof.
  intros Heq Hnum i lbl' Hi.
  assert ((global_index <$> lbls) !! i = Some (global_index lbl')) as Hlook.
  { rewrite <- Heq, list_lookup_fmap, Hi. reflexivity. }
  rewrite list_lookup_fmap in Hlook.
  destruct (lbls !! i) as [lbl|] eqn:Hlbl; [|discriminate].
  injection Hlook as Hsame. rewrite <- Hsame. exact (Hnum i lbl Hlbl).
Qed.

Lemma update_heights_numbered v w v' :
  update_heights v w = Some v' -> numbered v -> numbered v'.
Proof.
  unfold update_heights. intros Hrun Hnum.
  destruct (for_each _ _ _) as [acc|] eqn:Hloop; simpl in Hrun; [|discriminate].
  injection Hrun as <-. unfold numbered. simpl.
  apply (numbered_indices (labels v)); [|exact Hnum].
  exact (for_each_update_heights_indices _ _ _ _ _ Hloop).
Qed.

Lemma on_scroll_numbered v w v' out :
  on_scroll v w = Some (v', out) -> numbered v -> numbered v'.
Proof.
  intros Hrun Hnum.
  apply on_scroll_inv in Hrun as [(_ & -> & _)|(_ & lbls & ind & Hsweep & _ & ->)];
    [exact Hnum|].
  unfold numbered. simpl. apply (numbered_indices (labels v)); [|exact Hnum].
  exact (for_each_sweep_indices _ _ _ _ _ Hsweep).
Qed.

Lemma update_heights_sized v w v' :
  update_heights v w = Some v' -> sized_for v' (viewport_width w - 20).
Proof.
  intros Hrun i Hi.
  destruct (update_heights_layout _ _ _ Hrun) as (hs & Hhs & Hlen & Htab & _ & Hn & _).
  rewrite Hn in Hi.
  destruct (update_heights_label _ _ _ i Hrun Hi) as (h & lbl & Hh & Hlbl & Hlbl').
  assert (hs !! i = Some h) as Hhsi.
  { apply mapM_Some_1 in Hhs.
    destruct (Forall2_lookup_l _ _ _ i i Hhs) as (h' & Hh' & Hh'').
    - unfold range. apply lookup_seq. lia.
    - congruence. }
  destruct (sums_from_step hs 0 i h Hhsi) as (a & Ha & Ha').
  exists (setFixedHeight h lbl), h, a. rewrite Htab.
  rewrite (page_size_layout _ _ _ _ Hrun).
  split; [exact Hlbl'|]. split; [exact Hh|]. split; [reflexivity|].
  split; [exact Ha | exact Ha'].
Qed.

Lemma on_scroll_sized v w v' out :
  on_scroll v w = Some (v', out) -> numbered v ->
  sized_for v (viewport_width w - 20) -> sized_for v' (viewport_width w - 20).
Proof.
  intros Hrun Hnum Hsized i Hi.
  destruct (on_scroll_catalogue _ _ _ _ Hrun)
    as (Hcbzs & Hmap & Hpages & _ & Htab & _).
  rewrite Hpages in Hi.
  destruct (Hsized i Hi) as (lbl & h & a & Hlbl & Hh & Hfixed & Ha & Ha').
  destruct (on_scroll_swept _ _ _ _ i Hrun Hi)
    as (lbl0 & lbl' & Hlbl0 & Hlbl' & Hin & Hout).
  assert (lbl0 = lbl) as -> by congruence.
  exists lbl', h, a. rewrite Htab. unfold page_size. rewrite Hcbzs, Hmap.
  split; [exact Hlbl'|]. split; [exact Hh|]. split; [|split; assumption].
  destruct (decide (load_start v w <= Z.of_nat i <= load_end v w)) as [Hw|Hw].
  - rewrite (Hin Hw).
    destruct (load_pixmap_cases v w lbl) as [->|(height & Hdec & -> & _)];
      [exact Hfixed|].
    apply try_decode_height in Hdec. rewrite (Hnum i lbl Hlbl) in Hdec.
    simpl. congruence.
  - destruct (Hout Hw) as (-> & _). rewrite unload_pixmap_fixed_height.
    exact Hfixed.
Qed.


Lemma numbered_viewer_of_pages sizes : numbered (viewer_of_pages sizes).
Proof.
  intros i lbl. unfold viewer_of_pages, range. simpl.
  rewrite list_lookup_fmap.
  destruct (seq 0 (length sizes) !! i) as [j|] eqn:Hj; simpl; [|discriminate].
  apply lookup_seq in Hj as [-> _]. intros [= <-]. reflexivity.
Qed.


(** ** Start-up *)

Lemma on_scroll_labels_length v w v' out :
  on_scroll v w = Some (v', out) -> length (labels v') = length (labels v).
Proof.
  intros Hrun.
  apply on_scroll_inv in Hrun as [(_ & -> & _)|(_ & lbls & ind & Hsweep & _ & ->)];
    [reflexivity|].
  simpl. exact (sweep_length _ _ _ _ Hsweep).
Qed.

Lemma show_pages_laid_out v w v' out :
  show_pages v w = Some (v', out) ->
  numbered v' /\ sized_for v' (viewport_width w - 20)
  /\ length (labels v') = total_pages v'
  /\ length (cumulative_heights v') = S (total_pages v').
Proof.
  unfold show_pages. intros Hrun.
  destruct (update_heights _ w) as [v1|] eqn:Hlayout; simpl in Hrun;
    [|discriminate].
  assert (numbered v1) as Hnum1.
  { apply (update_heights_numbered _ _ _ Hlayout).
    intros i lbl. simpl. unfold range. rewrite list_lookup_fmap.
    destruct (seq 0 (total_pages v) !! i) as [j|] eqn:Hj; simpl; [|discriminate].
    apply lookup_seq in Hj as [-> _]. intros [= <-]. reflexivity. }
  destruct (update_heights_layout _ _ _ Hlayout)
    as (hs & _ & Hlen & Htab & _ & Hn & Hlabels).
  destruct (on_scroll_catalogue _ _ _ _ Hrun) as (_ & _ & Hpages & _ & Htab' & _).
  split; [exact (on_scroll_numbered _ _ _ _ Hrun Hnum1)|].
  split; [exact (on_scroll_sized _ _ _ _ Hrun Hnum1
                   (update_heights_sized _ _ _ Hlayout))|].
  split.
  - rewrite (on_scroll_labels_length _ _ _ _ Hrun), Hlabels, Hpages, Hn. simpl.
    unfold range. rewrite length_map, length_seq. reflexivity.
  - rewrite Htab', Htab, length_prefix_sums, Hpages, Hn, Hlen. reflexivity.
Qed.

Lemma load_folder_laid_out fs w folder v' out :
  load_folder fs w init_viewer folder = Some (v', out) ->
  numbered v' /\ sized_for v' (viewport_width w - 20)
  /\ length (labels v') = total_pages v'
  /\ (length (cumulative_heights v') <= S (total_pages v'))%nat.
Proof.
  unfold load_folder. cbn [total_pages].
  destruct (global_page_idx _ =? 0)%nat eqn:Hzero.
  - apply Nat.eqb_eq in Hzero. intros [= <- _].
    split; [intros i lbl Hi; discriminate|].
    split; [intros i Hi; simpl in Hi; lia|]. simpl. lia.
  - intros Hrun.
    destruct (show_pages_laid_out _ _ _ _ Hrun) as (? & ? & ? & ?).
    do 3 (split; [assumption|]). lia.
Qed.

Lemma load_single_cbz_laid_out fs w path v' out :
  load_single_cbz fs w init_viewer path = Some (v', out) ->
  numbered v' /\ sized_for v' (viewport_width w - 20)
  /\ length (labels v') = total_pages v'
  /\ (length (cumulative_heights v') <= S (total_pages v'))%nat.
Proof.
  unfold load_single_cbz. intros Hrun.
  destruct (zip_files fs !! path) as [z|]; simpl in Hrun; [|discriminate].
  destruct (length (image_entries z) =? 0)%nat eqn:Hzero.
  - injection Hrun as <- <-.
    split; [intros i lbl Hi; discriminate|].
    split; [intros i Hi; simpl in Hi; lia|]. simpl. lia.
  - destruct (mapM (probe z) (image_entries z)) as [sizes|]; simpl in Hrun;
      [|discriminate].
    destruct (show_pages_laid_out _ _ _ _ Hrun) as (? & ? & ? & ?).
    do 3 (split; [assumption|]). lia.
Qed.

Lemma load_path_inv path d fs w v out :
  load_path path d fs w = Returned (v, out) ->
  exists p,
    nonempty p = true
    /\ (load_folder fs w init_viewer p = Some (v, out)
        \/ load_single_cbz fs w init_viewer p = Some (v, out)).
Proof.
  assert (forall r : option (viewer * list log_line),
            of_option r = Returned (v, out) -> r = Some (v, out)) as Hof.
  { intros [a|]; simpl; [intros [= ->]; reflexivity | discriminate]. }
  assert (load_from_dialog d fs w = Returned (v, out) ->
          exists p,
            nonempty p = true
            /\ (load_folder fs w init_viewer p = Some (v, out)
                \/ load_single_cbz fs w init_viewer p = Some (v, out)))
    as Hdialog.
  { unfold load_from_dialog.
    destruct (nonempty (getOpenFileName d)) eqn:Hp; [|discriminate].
    destruct (isdir d (getOpenFileName d)); intros Hrun;
      apply Hof in Hrun; eauto. }
  unfold load_path. destruct path as [p|]; [|exact Hdialog].
  destruct (nonempty p) eqn:Hp; simpl; [|exact Hdialog].
  destruct (isdir d p); [intros Hrun; apply Hof in Hrun; eauto|].
  destruct (isfile d p); [intros Hrun; apply Hof in Hrun; eauto|].
  exact Hdialog.
Qed.

Lemma CBZViewer_init_inv path d fs w s :
  CBZViewer_init path d fs w = Returned s ->
  exists out,
    load_path path d fs w = Returned (window s, out)
    /\ restored s = (restore_state (window s) fs).1
    /\ printed s = out ++ (restore_state (window s) fs).2.
Proof.
  unfold CBZViewer_init.
  destruct (load_path path d fs w) as [[v out]| |]; [|discriminate..].
  destruct (restore_state v fs) as [scroll_pos out'] eqn:Hrestore.
  intros [= <-]. simpl. rewrite Hrestore. eauto.
Qed.



Lemma of_option_not_exited {A : Type} (r : option A) : of_option r <> Exited.
Proof. destruct r; discriminate. Qed.

Lemma load_from_dialog_exits d fs w :
  load_from_dialog d fs w = Exited <-> getOpenFileName d = EmptyString.
Proof.
  unfold load_from_dialog, nonempty.
  destruct (String.eqb_spec (getOpenFileName d) EmptyString) as [->|Hne]; simpl.
  - split; reflexivity.
  - split; [|contradiction].
    destruct (isdir d (getOpenFileName d)); intros Hrun;
      apply of_option_not_exited in Hrun; contradiction.
Qed.


Lemma load_folder_reads_archives_only fs fs' w v folder :
  List.filter is_archive_name (listdir fs' folder)
  = List.filter is_archive_name (listdir fs folder) ->
  zip_files fs' = zip_files fs ->
  load_folder fs' w v folder = load_folder fs w v folder.
Proof.
  intros Hdir Hzip. unfold load_folder, load_folder_scan, cbz_files.
  rewrite Hdir.
  assert (load_folder_step fs' = load_folder_step fs) as ->; [|reflexivity].
  unfold load_folder_step. rewrite Hzip. reflexivity.
Qed.

Lemma restore_state_reads_files v fs fs' :
  files fs' = files fs -> restore_state v fs' = restore_state v fs.
Proof. intros Hfiles. unfold restore_state. rewrite Hfiles. reflexivity. Qed.

(** The state file is not taken for an archive. *)
Example state_file_is_no_archive :
  is_archive_name ".cbzviewer_state.json" = false.
Proof. reflexivity. Qed.



(** ** The sweep, page by page *)

Lemma sweep_step_eq v w acc i lbl :
  acc.1 !! i = Some lbl ->
  sweep_step v w acc i
  = Some (<[i := sweep_label v w i lbl]> acc.1, acc.2 ++ sweep_lines v w i lbl).
Proof.
  destruct acc as [lbls out]. simpl. intros Hlbl.
  unfold sweep_step, sweep_label, sweep_lines. rewrite Hlbl. simpl.
  destruct (in_window v w i).
  - destruct (load_pixmap v w lbl) as [lbl' lines]. reflexivity.
  - rewrite app_nil_r. reflexivity.
Qed.

Lemma sweep_step_cases v w acc i acc' :
  sweep_step v w acc i = Some acc' ->
  exists lbl,
    acc.1 !! i = Some lbl
    /\ acc' = (<[i := sweep_label v w i lbl]> acc.1,
               acc.2 ++ sweep_lines v w i lbl).
Proof.
  intros Hstep. destruct (acc.1 !! i) as [lbl|] eqn:Hlbl.
  - exists lbl. split; [reflexivity|].
    rewrite (sweep_step_eq _ _ _ _ _ Hlbl) in Hstep. congruence.
  - destruct acc as [lbls out]. simpl in Hlbl. unfold sweep_step in Hstep.
    rewrite Hlbl in Hstep. discriminate.
Qed.

Lemma for_each_sweep_out v w idxs : forall acc acc',
  for_each (sweep_step v w) acc idxs = Some acc' ->
  exists more, acc'.2 = acc.2 ++ more.
Proof.
  induction idxs as [|i idxs IH]; intros acc acc' Hrun; simpl in Hrun.
  - injection Hrun as <-. exists []. rewrite app_nil_r. reflexivity.
  - destruct (sweep_step v w acc i) as [acc1|] eqn:Hstep; simpl in Hrun;
      [|discriminate].
    apply sweep_step_cases in Hstep as (lbl & _ & ->).
    destruct (IH _ _ Hrun) as (more & ->). simpl.
    exists (sweep_lines v w i lbl ++ more). rewrite app_assoc. reflexivity.
Qed.

(** Every line a turn of the sweep prints is on the output of the sweep. *)
Lemma for_each_sweep_lines v w idxs : forall acc acc' i,
  for_each (sweep_step v w) acc idxs = Some acc' ->
  NoDup idxs -> i ∈ idxs ->
  exists lbl,
    acc.1 !! i = Some lbl
    /\ acc'.1 !! i = Some (sweep_label v w i lbl)
    /\ forall line, line ∈ sweep_lines v w i lbl -> line ∈ acc'.2.
Proof.
  induction idxs as [|i0 idxs IH]; intros acc acc' i Hrun Hnd Hi;
    simpl in Hrun.
  - apply elem_of_nil in Hi. contradiction.
  - destruct (sweep_step v w acc i0) as [acc1|] eqn:Hstep; simpl in Hrun;
      [|discriminate].
    apply sweep_step_cases in Hstep as (lbl & Hlbl & ->).
    apply NoDup_cons in Hnd as [Hfresh Hnd].
    apply elem_of_cons in Hi as [->|Hi].
    + exists lbl. split; [exact Hlbl|]. split.
      * rewrite (for_each_sweep_other _ _ _ _ _ _ Hrun Hfresh). simpl.
        apply list_lookup_insert_eq. eapply lookup_lt_Some, Hlbl.
      * intros line Hline.
        destruct (for_each_sweep_out _ _ _ _ _ Hrun) as (more & ->). simpl.
        apply elem_of_app. left. apply elem_of_app. right. exact Hline.
    + assert (i <> i0) as Hne by (intros ->; contradiction).
      destruct (IH _ _ _ Hrun Hnd Hi) as (lbl' & Hl & Hl' & Hlines).
      simpl in Hl. rewrite list_lookup_insert_ne in Hl by congruence.
      exists lbl'. auto.
Qed.

Lemma sweep_page_lines v w lbls out i :
  sweep v w = Some (lbls, out) -> (i < total_pages v)%nat ->
  exists lbl,
    labels v !! i = Some lbl
    /\ lbls !! i = Some (sweep_label v w i lbl)
    /\ forall line, line ∈ sweep_lines v w i lbl -> line ∈ out.
Proof.
  intros Hrun Hi.
  apply (for_each_sweep_lines _ _ _ _ _ _ Hrun (NoDup_range _)).
  apply elem_of_seq. lia.
Qed.

(** A sweep over labels that it leaves alone, and for which it prints
    nothing, changes nothing. *)
Lemma for_each_sweep_fixed v w idxs lbls out :
  (forall i, i ∈ idxs ->
     exists lbl, lbls !! i = Some lbl
                 /\ sweep_label v w i lbl = lbl
                 /\ sweep_lines v w i lbl = []) ->
  for_each (sweep_step v w) (lbls, out) idxs = Some (lbls, out).
Proof.
  induction idxs as [|i idxs IH]; intros Hfixed; cbn [for_each];
    [reflexivity|].
  destruct (Hfixed i) as (lbl & Hlbl & Hsame & Hquiet); [left|].
  rewrite (sweep_step_eq v w (lbls, out) i lbl Hlbl). cbn [mbind option_bind fst snd].
  rewrite Hsame, Hquiet, app_nil_r, (list_insert_id _ _ _ Hlbl).
  apply IH. intros i' Hi'. apply Hfixed. right. exact Hi'.
Qed.

(** ** The page cache *)

(** A call of [load_pixmap] that prints nothing leaves a label that holds a
    pixmap made for the current width. *)
Lemma load_pixmap_quiet v w lbl :
  (load_pixmap v w lbl).2 = [] ->
  loaded_for (viewport_width w - 20) (load_pixmap v w lbl).1 = true.
Proof.
  unfold load_pixmap.
  destruct (loaded_for _ lbl) eqn:Hguard; simpl; [intros _; exact Hguard|].
  destruct (try_decode _ _ _ lbl) as [height|]; simpl; [|discriminate].
  intros _. unfold loaded_for. simpl. apply Z.eqb_refl.
Qed.

Lemma load_pixmap_loaded v w lbl :
  loaded_for (viewport_width w - 20) lbl = true ->
  load_pixmap v w lbl = (lbl, []).
Proof. unfold load_pixmap. intros ->. reflexivity. Qed.

Lemma load_pixmap_reports v w lbl :
  (load_pixmap v w lbl).2 = []
  \/ (load_pixmap v w lbl).2 = [ErrorLoadingImage (global_index lbl)].
Proof.
  unfold load_pixmap. destruct (loaded_for _ lbl); [left; reflexivity|].
  destruct (try_decode _ _ _ lbl); [left | right]; reflexivity.
Qed.

Lemma unload_pixmap_idempotent lbl :
  unload_pixmap (unload_pixmap lbl) = unload_pixmap lbl.
Proof.
  unfold unload_pixmap. destruct (pixmap_loaded lbl) eqn:Hloaded; simpl.
  - reflexivity.
  - rewrite Hloaded. reflexivity.
Qed.

Lemma sweep_label_idempotent v w i lbl :
  sweep_lines v w i lbl = [] ->
  sweep_label v w i (sweep_label v w i lbl) = sweep_label v w i lbl
  /\ sweep_lines v w i (sweep_label v w i lbl) = [].
Proof.
  unfold sweep_label, sweep_lines. destruct (in_window v w i).
  - intros Hquiet. apply load_pixmap_quiet in Hquiet.
    rewrite (load_pixmap_loaded _ _ _ Hquiet). auto.
  - intros _. split; [apply unload_pixmap_idempotent | reflexivity].
Qed.



Lemma in_window_true v w i :
  in_window v w i = true <-> load_start v w <= Z.of_nat i <= load_end v w.
Proof.
  unfold in_window. rewrite andb_true_iff, !Z.leb_le. reflexivity.
Qed.



(** ** How many pixmaps are held *)

Lemma filter_outside_nil {A : Type} (P : A -> bool) (l : list A) :
  (forall x, In x l -> P x = false) -> List.filter P l = [].
Proof.
  induction l as [|x l IH]; intros Hall; simpl; [reflexivity|].
  rewrite (Hall x (or_introl eq_refl)). apply IH. intros y Hy. apply Hall.
  right. exact Hy.
Qed.

Lemma length_filter_le {A : Type} (P : A -> bool) (l : list A) :
  (length (List.filter P l) <= length l)%nat.
Proof.
  induction l as [|x l IH]; simpl; [lia|]. destruct (P x); simpl; lia.
Qed.

(** A list in which only the places from [a] to [b] can satisfy [P] has at
    most [b + 1 - a] elements that do. *)
Lemma length_filter_window {A : Type} (P : A -> bool) (l : list A) (a b : nat) :
  (forall i x, l !! i = Some x -> P x = true -> (a <= i <= b)%nat) ->
  (length (List.filter P l) <= b + 1 - a)%nat.
Proof.
  intros Hwindow.
  rewrite <- (take_drop a l), List.filter_app.
  rewrite (filter_outside_nil P (take a l)).
  - simpl. rewrite <- (take_drop (b + 1 - a) (drop a l)), List.filter_app.
    rewrite (filter_outside_nil P (drop (b + 1 - a) (drop a l))).
    + rewrite app_nil_r.
      etransitivity; [apply length_filter_le|]. rewrite length_take. lia.
    + intros x Hx. apply list_elem_of_In, list_elem_of_lookup in Hx as [i Hi].
      rewrite !lookup_drop in Hi.
      destruct (P x) eqn:HP; [|reflexivity].
      specialize (Hwindow _ _ Hi HP). lia.
  - intros x Hx. apply list_elem_of_In, list_elem_of_lookup in Hx as [i Hi].
    apply lookup_take_Some in Hi as [Hi Hlt].
    destruct (P x) eqn:HP; [|reflexivity].
    specialize (Hwindow _ _ Hi HP). lia.
Qed.



(** ** The page under an offset *)

Lemma next_index_above_first l : forall i x j c,
  l !! j = Some c -> x < c ->
  exists k c',
    next_index_above i l x = Some (i + k)%nat
    /\ l !! k = Some c' /\ x < c'
    /\ forall j' c'', (j' < k)%nat -> l !! j' = Some c'' -> c'' <= x.
Proof.
  induction l as [|c0 l IH]; intros i x j c Hj Hc; [discriminate|].
  simpl. destruct (Z.ltb_spec x c0) as [Hlt|Hge].
  - exists 0%nat, c0. rewrite Nat.add_0_r.
    repeat split; [exact Hlt | intros j' c'' Hj'; lia].
  - destruct j as [|j]; simpl in Hj; [injection Hj as ->; lia|].
    destruct (IH (S i) x j c Hj Hc) as (k & c' & Hnext & Hk & Hc' & Hbelow).
    exists (S k), c'. rewrite Hnext. simpl.
    split; [f_equal; lia|]. split; [exact Hk|]. split; [exact Hc'|].
    intros [|j'] c'' Hj' Hc''; simpl in Hc''.
    + injection Hc'' as <-. exact Hge.
    + apply (Hbelow j' c''); [lia | exact Hc''].
Qed.



(** ** A recompute at the same width *)

Lemma setFixedHeight_twice h lbl :
  setFixedHeight h (setFixedHeight h lbl) = setFixedHeight h lbl.
Proof. reflexivity. Qed.

Lemma update_heights_labels_other v w v' i :
  update_heights v w = Some v' -> (total_pages v <= i)%nat ->
  labels v' !! i = labels v !! i.
Proof.
  unfold update_heights. intros Hrun Hi.
  destruct (for_each _ _ _) as [acc|] eqn:Hloop; simpl in Hrun; [|discriminate].
  injection Hrun as <-. simpl.
  rewrite (for_each_update_heights_other _ _ _ _ _ i Hloop); [reflexivity|].
  intros Hin. apply elem_of_seq in Hin. lia.
Qed.

Lemma update_heights_container v w v' :
  update_heights v w = Some v' ->
  container_height v' = Some (total_height v') /\ indicator v' = indicator v.
Proof.
  unfold update_heights. intros Hrun.
  destruct (for_each _ _ _) as [acc|]; simpl in Hrun; [|discriminate].
  injection Hrun as <-. split; reflexivity.
Qed.

Lemma update_heights_labelled v w v' :
  update_heights v w = Some v' -> (total_pages v <= length (labels v))%nat.
Proof.
  intros Hrun. destruct (total_pages v) as [|n] eqn:Hn; [lia|].
  destruct (update_heights_label _ _ _ n Hrun) as (h & lbl & _ & Hlbl & _);
    [lia|].
  apply lookup_lt_Some in Hlbl. lia.
Qed.

Lemma viewer_eq v1 v2 :
  cbzs v1 = cbzs v2 -> page_to_file_map v1 = page_to_file_map v2 ->
  file_page_starts v1 = file_page_starts v2 -> labels v1 = labels v2 ->
  cumulative_heights v1 = cumulative_heights v2 ->
  total_pages v1 = total_pages v2 -> total_height v1 = total_height v2 ->
  folder_path v1 = folder_path v2 ->
  container_height v1 = container_height v2 -> indicator v1 = indicator v2 ->
  v1 = v2.
Proof.
  destruct v1, v2. simpl. intros. subst. reflexivity.
Qed.



(** ** The page cache stays coherent *)

Lemma new_label_coherent i : coherent (new_label i).
Proof. split; reflexivity. Qed.

Lemma setFixedHeight_coherent h lbl :
  coherent lbl -> coherent (setFixedHeight h lbl).
Proof. intros H. exact H. Qed.

Lemma unload_pixmap_coherent lbl : coherent lbl -> coherent (unload_pixmap lbl).
Proof.
  unfold unload_pixmap. destruct (pixmap_loaded lbl) eqn:Hloaded; simpl.
  - intros _. split; reflexivity.
  - intros H. exact H.
Qed.

Lemma load_pixmap_coherent v w lbl :
  coherent lbl -> coherent (load_pixmap v w lbl).1.
Proof.
  intros H.
  destruct (load_pixmap_cases v w lbl) as [->|(height & _ & -> & _)];
    [exact H|].
  exists height. reflexivity.
Qed.

Lemma sweep_label_coherent v w i lbl :
  coherent lbl -> coherent (sweep_label v w i lbl).
Proof.
  unfold sweep_label. destruct (in_window v w i);
    [apply load_pixmap_coherent | apply unload_pixmap_coherent].
Qed.

Lemma Forall_insert_at {A : Type} (P : A -> Prop) (l : list A) i x :
  Forall P l -> P x -> Forall P (<[i := x]> l).
Proof.
  intros Hall Hx. apply Forall_forall. intros y Hy.
  apply list_elem_of_lookup in Hy as [j Hj].
  destruct (decide (i = j)) as [->|Hne].
  - destruct (lookup_lt_is_Some_2 l j) as [z Hz].
    { apply lookup_lt_Some in Hj. rewrite length_insert in Hj. exact Hj. }
    rewrite list_lookup_insert_eq in Hj by (eapply lookup_lt_Some, Hz).
    congruence.
  - rewrite list_lookup_insert_ne in Hj by exact Hne.
    rewrite Forall_forall in Hall. apply Hall.
    apply list_elem_of_lookup. eauto.
Qed.

Lemma for_each_sweep_coherent v w idxs : forall acc acc',
  for_each (sweep_step v w) acc idxs = Some acc' ->
  Forall coherent acc.1 -> Forall coherent acc'.1.
Proof.
  induction idxs as [|i idxs IH]; intros acc acc' Hrun Hall; simpl in Hrun.
  - congruence.
  - destruct (sweep_step v w acc i) as [acc1|] eqn:Hstep; simpl in Hrun;
      [|discriminate].
    apply sweep_step_cases in Hstep as (lbl & Hlbl & ->).
    apply (IH _ _ Hrun). simpl. apply Forall_insert_at; [exact Hall|].
    apply sweep_label_coherent. rewrite Forall_forall in Hall. apply Hall.
    apply list_elem_of_lookup. eauto.
Qed.

Lemma for_each_update_heights_coherent v width idxs : forall acc acc',
  for_each (update_heights_step v width) acc idxs = Some acc' ->
  Forall coherent (sized acc) -> Forall coherent (sized acc').
Proof.
  induction idxs as [|i idxs IH]; intros acc acc' Hrun Hall; simpl in Hrun.
  - congruence.
  - destruct (update_heights_step v width acc i) as [acc1|] eqn:Hstep;
      simpl in Hrun; [|discriminate].
    apply (IH _ _ Hrun). unfold update_heights_step in Hstep.
    destruct (page_size v i) as [size|]; simpl in Hstep; [|discriminate].
    destruct (page_height width size) as [h|]; simpl in Hstep; [|discriminate].
    destruct (sized acc !! i) as [lbl|] eqn:Hlbl; simpl in Hstep; [|discriminate].
    injection Hstep as <-. simpl. apply Forall_insert_at; [exact Hall|].
    apply setFixedHeight_coherent. rewrite Forall_forall in Hall. apply Hall.
    apply list_elem_of_lookup. eauto.
Qed.

Lemma on_scroll_coherent v w v' out :
  on_scroll v w = Some (v', out) ->
  Forall coherent (labels v) -> Forall coherent (labels v').
Proof.
  intros Hrun Hall.
  apply on_scroll_inv in Hrun
    as [(_ & -> & _)|(_ & lbls & ind & Hsweep & _ & ->)]; [exact Hall|].
  exact (for_each_sweep_coherent _ _ _ _ _ Hsweep Hall).
Qed.

Lemma update_heights_coherent v w v' :
  update_heights v w = Some v' ->
  Forall coherent (labels v) -> Forall coherent (labels v').
Proof.
  unfold update_heights. intros Hrun Hall.
  destruct (for_each _ _ _) as [acc|] eqn:Hloop; simpl in Hrun; [|discriminate].
  injection Hrun as <-. simpl.
  exact (for_each_update_heights_coherent _ _ _ _ _ Hloop Hall).
Qed.


Lemma coherent_viewer_of_pages sizes :
  Forall coherent (labels (viewer_of_pages sizes)).
Proof.
  unfold viewer_of_pages. simpl. apply Forall_forall. intros lbl Hlbl.
  apply list_elem_of_fmap in Hlbl as (i & -> & _). apply new_label_coherent.
Qed.


(** ** The state file *)



(** ** File names *)

Lemma append_cons x (a b : string) : String x a +:+ b = String x (a +:+ b).
Proof. reflexivity. Qed.

Lemma append_assoc (a b c : string) : (a +:+ b) +:+ c = a +:+ (b +:+ c).
Proof.
  induction a as [|x a IH]; [reflexivity|].
  rewrite !append_cons, IH. reflexivity.
Qed.

Lemma basename_from_no_sep name : forall acc,
  has_sep name = false -> basename_from acc name = String.rev_app acc name.
Proof.
  induction name as [|c name IH]; intros acc Hsep; simpl in *; [reflexivity|].
  apply orb_false_iff in Hsep as [Hc Hsep]. rewrite Hc.
  exact (IH (String c acc) Hsep).
Qed.

Lemma basename_from_sep dir name : forall acc,
  has_sep name = false ->
  basename_from acc (dir +:+ String "/"%char name) = name.
Proof.
  induction dir as [|c dir IH]; intros acc Hsep.
  - change (basename_from EmptyString name = name).
    apply (basename_from_no_sep name EmptyString Hsep).
  - rewrite append_cons. simpl.
    destruct (Ascii.eqb c "/"%char); apply IH; exact Hsep.
Qed.

Lemma prefix_sep_head c t :
  String.prefix "/" (String c t) = true -> c = "/"%char.
Proof.
  change (String.prefix "/" (String c t))
    with (match ascii_dec "/"%char c with
          | left _ => String.prefix "" t
          | right _ => false
          end).
  destruct (ascii_dec "/"%char c) as [<-|]; [reflexivity | discriminate].
Qed.

Lemma rev_app_starts_with_sep s : forall t,
  String.prefix "/" (String.rev_app s t) = true ->
  (s = EmptyString /\ String.prefix "/" t = true)
  \/ exists s', s = s' +:+ "/"%string.
Proof.
  induction s as [|c s IH]; intros t Hprefix; simpl in Hprefix; [auto|].
  right. destruct (IH _ Hprefix) as [[-> Hc]|[s' ->]].
  - exists EmptyString. apply prefix_sep_head in Hc as ->. reflexivity.
  - exists (String c s'). reflexivity.
Qed.




(** ** What a kept archive holds *)

Lemma load_folder_cbzs fs w folder v' out :
  load_folder fs w init_viewer folder = Some (v', out) ->
  cbzs v' = omap (open_archive fs) (cbz_files fs folder).
Proof.
  intros Hrun.
  destruct (load_folder_catalogue _ _ _ _ _ Hrun) as (-> & _).
  unfold load_folder_scan.
  destruct (load_folder_scan_from fs (cbz_files fs folder)
              {| scan_cbzs := cbzs init_viewer; scan_map := [];
                 scan_starts := [0]; global_page_idx := 0 |}) as (Hc & _).
  exact Hc.
Qed.



(** ** The window on the screen *)



(** ** A whole session *)

Lemma run_events_returns events : forall v,
  ready v -> Forall (fun ew => moderate ew.2) events ->
  exists v' out,
    run_events events v = Some (v', out)
    /\ ready v' /\ Forall is_image_error out.
Proof.
  induction events as [|[e w] events IH]; intros v Hready Hworlds; simpl.
  - exists v, []. split; [reflexivity|]. split; [exact Hready | constructor].
  - apply Forall_cons in Hworlds as [Hw Hworlds]. simpl in Hw.
    destruct (handle_returns e v w Hready Hw) as (v1 & out1 & Hrun1 & Hready1).
    rewrite Hrun1. simpl.
    destruct (IH v1 Hready1 Hworlds) as (v2 & out2 & -> & Hready2 & Hout2).
    simpl. exists v2, (out1 ++ out2). split; [reflexivity|].
    split; [exact Hready2|]. apply Forall_app. split; [|exact Hout2].
    destruct e; simpl in Hrun1.
    + exact (on_scroll_prints _ _ _ _ Hrun1).
    + unfold on_resize in Hrun1.
      destruct (update_heights v w) as [v0|]; simpl in Hrun1; [|discriminate].
      exact (on_scroll_prints _ _ _ _ Hrun1).
Qed.



(** ** A folder without pages *)

Lemma load_folder_scan_skips fs paths : forall s,
  Forall (fun file_path => open_archive fs file_path = None) paths ->
  foldl (load_folder_step fs) s paths = s.
Proof.
  induction paths as [|p paths IH]; intros s Hall; simpl; [reflexivity|].
  apply Forall_cons in Hall as [Hp Hall].
  rewrite (load_folder_step_skipped _ _ _ Hp). apply IH, Hall.
Qed.



(** ** The two loaders side by side *)

Lemma update_heights_with_folder_path path v w :
  update_heights (with_folder_path path v) w
  = with_folder_path path <$> update_heights v w.
Proof.
  unfold update_heights.
  change (for_each (update_heights_step (with_folder_path path v)
                      (viewport_width w - 20))
            {| cumulative := 0; table := [0];
               sized := labels (with_folder_path path v) |}
            (range (total_pages (with_folder_path path v))))
    with (for_each (update_heights_step v (viewport_width w - 20))
            {| cumulative := 0; table := [0]; sized := labels v |}
            (range (total_pages v))).
  destruct (for_each _ _ _) as [acc|]; reflexivity.
Qed.

Lemma on_scroll_with_folder_path path v w :
  on_scroll (with_folder_path path v) w
  = (fun r => (with_folder_path path r.1, r.2)) <$> on_scroll v w.
Proof.
  unfold on_scroll.
  change (total_pages (with_folder_path path v)) with (total_pages v).
  destruct (total_pages v =? 0)%nat; [reflexivity|].
  change (sweep (with_folder_path path v) w) with (sweep v w).
  destruct (sweep v w) as [[lbls out]|]; [|reflexivity]. simpl.
  change (indicator_of (with_labels (with_folder_path path v) lbls
                          (indicator (with_folder_path path v))) w)
    with (indicator_of (with_labels v lbls (indicator v)) w).
  destruct (indicator_of _ w) as [ind|]; reflexivity.
Qed.

Lemma show_pages_with_folder_path path v w :
  show_pages (with_folder_path path v) w
  = (fun r => (with_folder_path path r.1, r.2)) <$> show_pages v w.
Proof.
  unfold show_pages.
  match goal with
  | |- update_heights ?a w ≫= _ = _ <$> (update_heights ?b w ≫= _) =>
      change a with (with_folder_path path b)
  end.
  rewrite update_heights_with_folder_path.
  destruct (update_heights _ w) as [v1|]; [|reflexivity]. simpl.
  apply on_scroll_with_folder_path.
Qed.

Lemma mapM_probe_sizes z names sizes :
  mapM (probe z) names = Some sizes ->
  sizes = map (probe_or_fallback z) names.
Proof.
  intros Hsizes. apply mapM_Some_1 in Hsizes.
  induction Hsizes as [|name size names sizes Hprobe _ IH]; [reflexivity|].
  simpl. unfold probe_or_fallback at 1. rewrite Hprobe, IH. reflexivity.
Qed.



(** ** A page at its natural width

    At the natural width the scale factor is the float 1.0 and the product
    with the natural height is exact, so that the page keeps its natural
    height. *)

Module Float64Exact.
Import Float64.

Lemma Zdigits2_eq m k : 0 < k -> 2 ^ (k - 1) <= m < 2 ^ k -> Zdigits2 m = k.
Proof.
  intros Hk [Hlo Hhi].
  assert (0 < 2 ^ (k - 1)) as Hpos by (apply Z.pow_pos_nonneg; lia).
  destruct m as [|p|p]; try lia. simpl.
  pose proof (Float64Facts.digits2_pos_bounds p) as [Hlo' Hhi'].
  set (d := Z.pos (digits2_pos p)) in *.
  destruct (Z.lt_trichotomy d k) as [Hlt|[Heq|Hgt]]; [|assumption|].
  - assert (2 ^ d <= 2 ^ (k - 1)) by (apply Z.pow_le_mono_r; lia). lia.
  - assert (2 ^ k <= 2 ^ (d - 1)) by (apply Z.pow_le_mono_r; lia). lia.
Qed.

Lemma shr_1_even m :
  0 < m ->
  shr_1 {| shr_m := 2 * m; shr_r := false; shr_s := false |}
  = {| shr_m := m; shr_r := false; shr_s := false |}.
Proof. destruct m as [|p|p]; try lia. reflexivity. Qed.

Lemma pow2_xO n : 2 ^ Z.pos n~0 = 2 ^ Z.pos n * 2 ^ Z.pos n.
Proof.
  replace (Z.pos n~0) with (Z.pos n + Z.pos n) by lia.
  apply Z.pow_add_r; lia.
Qed.

Lemma pow2_xI n : 2 ^ Z.pos n~1 = 2 * (2 ^ Z.pos n * 2 ^ Z.pos n).
Proof.
  replace (Z.pos n~1) with (1 + (Z.pos n + Z.pos n)) by lia.
  rewrite Z.pow_add_r by lia. rewrite (Z.pow_add_r 2 (Z.pos n)) by lia.
  reflexivity.
Qed.

Lemma iter_shr_1_exact n : forall m,
  0 < m ->
  SpecFloat.iter_pos shr_1 n
    {| shr_m := m * 2 ^ Z.pos n; shr_r := false; shr_s := false |}
  = {| shr_m := m; shr_r := false; shr_s := false |}.
Proof.
  induction n as [n IH|n IH|]; intros m Hm; cbn [SpecFloat.iter_pos].
  - assert (0 < 2 ^ Z.pos n) as Hpow by (apply Z.pow_pos_nonneg; lia).
    replace (m * 2 ^ Z.pos n~1) with (2 * (m * 2 ^ Z.pos n * 2 ^ Z.pos n))
      by (rewrite pow2_xI; ring).
    rewrite shr_1_even by nia. rewrite IH by nia. apply IH. exact Hm.
  - assert (0 < 2 ^ Z.pos n) as Hpow by (apply Z.pow_pos_nonneg; lia).
    replace (m * 2 ^ Z.pos n~0) with (m * 2 ^ Z.pos n * 2 ^ Z.pos n)
      by (rewrite pow2_xO; ring).
    rewrite IH by nia. apply IH. exact Hm.
  - change (2 ^ 1) with 2. rewrite Z.mul_comm. apply shr_1_even. exact Hm.
Qed.

(** Shifting an exact mantissa of [53 + n] digits, the low [n] of them 0,
    down to 53 digits loses nothing. *)
Lemma shr_fexp_exact m n e :
  2 ^ 52 <= m < 2 ^ 53 -> 0 <= n -> -1074 <= e + n ->
  shr_fexp prec emax (m * 2 ^ n) e loc_Exact
  = ({| shr_m := m; shr_r := false; shr_s := false |}, e + n).
Proof.
  intros Hm Hn He. unfold shr_fexp.
  assert (0 < 2 ^ n) as Hpow by (apply Z.pow_pos_nonneg; lia).
  rewrite (Zdigits2_eq (m * 2 ^ n) (53 + n)).
  - rewrite Float64Facts.fexp_eq.
    replace (Z.max (53 + n + e - 53) (-1074) - e) with n by lia.
    unfold shr. simpl shr_record_of_loc.
    destruct n as [|p|p]; [| |lia].
    + rewrite Z.mul_1_r, Z.add_0_r. reflexivity.
    + rewrite iter_shr_1_exact by lia. reflexivity.
  - lia.
  - replace (53 + n - 1) with (52 + n) by lia.
    rewrite !Z.pow_add_r by lia. nia.
Qed.

Lemma binary_round_aux_exact s m n e :
  2 ^ 52 <= m < 2 ^ 53 -> 0 <= n -> -1074 <= e + n <= 971 ->
  binary_round_aux prec emax s (m * 2 ^ n) e loc_Exact
  = S754_finite s (Z.to_pos m) (e + n).
Proof.
  intros Hm Hn He. unfold binary_round_aux.
  rewrite (shr_fexp_exact m n e Hm Hn) by lia. simpl round_nearest_even.
  pose proof (shr_fexp_exact m 0 (e + n) Hm ltac:(lia) ltac:(lia)) as Hagain.
  rewrite Z.mul_1_r, Z.add_0_r in Hagain. rewrite Hagain. simpl shr_m.
  destruct m as [|p|p]; try lia.
  change (emax - prec) with 971.
  destruct (Z.leb_spec (e + n) 971); [reflexivity | lia].
Qed.

Lemma pos_iter_xO p k : Z.pos (Pos.iter xO p k) = Z.pos p * 2 ^ Z.pos k.
Proof.
  induction k as [|k IH] using Pos.peano_ind.
  - simpl Pos.iter. change (2 ^ 1) with 2. rewrite (Pos2Z.inj_xO p). ring.
  - rewrite Pos.iter_succ, (Pos2Z.inj_xO (Pos.iter xO p k)), IH,
      Pos2Z.inj_succ, Z.pow_succ_r by lia.
    ring.
Qed.

(** [float(h)] for [0 < h < 2 ^ 53] is [h] itself, written with 53 digits. *)
Lemma of_int_exact h :
  0 < h < 2 ^ 53 ->
  exists m e,
    of_int h = Some (S754_finite false m e)
    /\ -52 <= e <= 0 /\ 2 ^ 52 <= Z.pos m < 2 ^ 53
    /\ Z.pos m = h * 2 ^ (- e).
Proof.
  intros Hh. destruct h as [|q|q]; try lia.
  unfold of_int, binary_normalize, binary_round, shl_align.
  pose proof (Float64Facts.digits2_pos_bounds q) as [Hlo Hhi].
  set (d := Z.pos (digits2_pos q)) in *.
  assert (1 <= d) as Hd1 by (unfold d; lia).
  clearbody d.
  assert (d <= 53) as Hd.
  { destruct (Z.le_gt_cases d 53) as [|Hgt]; [assumption|].
    assert (2 ^ 53 <= 2 ^ (d - 1)) by (apply Z.pow_le_mono_r; lia). lia. }
  rewrite Float64Facts.fexp_eq.
  replace (Z.max (d + 0 - 53) (-1074) - 0) with (d - 53) by lia.
  destruct (d - 53) as [|k|k] eqn:Hk; [|lia|].
  - assert (d = 53) as Hd53 by lia. rewrite Hd53 in Hlo, Hhi.
    change (53 - 1) with 52 in Hlo.
    pose proof (binary_round_aux_exact false (Z.pos q) 0 0) as Hround.
    rewrite Z.mul_1_r in Hround. rewrite Hround by lia.
    exists q, 0. split; [reflexivity|]. split; [lia|]. split; [lia|].
    simpl. lia.
  - replace (Z.max (d + 0 - 53) (-1074)) with (Z.neg k) by lia.
    assert (2 ^ 52 <= Z.pos (Pos.iter xO q k) < 2 ^ 53) as Hm.
    { rewrite pos_iter_xO.
      assert (2 ^ 52 = 2 ^ (d - 1) * 2 ^ Z.pos k) as ->.
      { rewrite <- Z.pow_add_r by lia. f_equal. lia. }
      assert (2 ^ 53 = 2 ^ d * 2 ^ Z.pos k) as ->.
      { rewrite <- Z.pow_add_r by lia. f_equal. lia. }
      assert (0 < 2 ^ Z.pos k) by (apply Z.pow_pos_nonneg; lia). nia. }
    pose proof (binary_round_aux_exact false (Z.pos (Pos.iter xO q k)) 0
                  (Z.neg k) Hm) as Hround.
    rewrite Z.mul_1_r in Hround. rewrite Hround by lia.
    exists (Pos.iter xO q k), (Z.neg k). simpl Z.to_pos. rewrite Z.add_0_r.
    split; [reflexivity|]. split; [lia|]. split; [exact Hm|].
    rewrite pos_iter_xO. reflexivity.
Qed.

Lemma SFdiv_self p :
  SFdiv prec emax (exact (Z.pos p)) (exact (Z.pos p)) = float_one.
Proof.
  unfold exact, SFdiv, SFdiv_core_binary. cbv zeta.
  replace (Zdigits2 (Z.pos p) + 0 - (Zdigits2 (Z.pos p) + 0)) with 0 by lia.
  change (Z.min (fexp prec emax 0) (0 - 0)) with (-53).
  change (0 - 0 - -53) with 53.
  change (match 53 with
          | 0 => Z.pos p
          | Z.pos _ => Z.shiftl (Z.pos p) 53
          | Z.neg _ => 0
          end) with (Z.shiftl (Z.pos p) 53).
  assert (Z.div_eucl (Z.shiftl (Z.pos p) 53) (Z.pos p) = (2 ^ 53, 0)) as ->.
  { rewrite Z.shiftl_mul_pow2 by lia.
    pose proof (Z_div_mod (Z.pos p * 2 ^ 53) (Z.pos p) ltac:(lia)) as Hspec.
    destruct (Z.div_eucl (Z.pos p * 2 ^ 53) (Z.pos p)) as [q r].
    destruct Hspec as [Heq Hr].
    assert (q = 2 ^ 53) as -> by nia.
    f_equal. lia. }
  assert (new_location (Z.pos p) 0 = loc_Exact) as ->.
  { unfold new_location. destruct (Z.even (Z.pos p)); reflexivity. }
  vm_compute. reflexivity.
Qed.

Lemma SFmul_one m e :
  2 ^ 52 <= Z.pos m < 2 ^ 53 -> -52 <= e <= 0 ->
  SFmul prec emax (S754_finite false m e) float_one = S754_finite false m e.
Proof.
  intros Hm He. unfold SFmul, float_one. simpl xorb.
  rewrite Pos2Z.inj_mul. change (Z.pos 4503599627370496) with (2 ^ 52).
  rewrite (binary_round_aux_exact false (Z.pos m) 52 (e + -52)) by lia.
  simpl Z.to_pos. f_equal. lia.
Qed.

End Float64Exact.


